(** * ferminet_tum: the VMC driver ([driver.py]) and its parameter tree ([params.py])

    A shallow embedding of [NNQS.calc_local_energy_kernel],
    [NNQS.calc_local_energies] and [NNQS.train], and of [NetParams.init]
    and [NetParams.total_n_parameters], together with the parts of
    JAX they rely on: IEEE-754 binary32 scalars (JAX's default dtype),
    element-wise array arithmetic, [jax.tree_util.tree_map] over the
    [NetParams] dataclass, [jax.lax.scan] and [jnp.nan_to_num].

    The sampler, the Hamiltonian, the network and the optimizer are
    collaborators that [driver.py] only calls; they are record-valued
    parameters here.  Calls to them are recorded in an event trace so that
    statements about what a collaborator receives can be made. *)

From Stdlib Require Import String ZArith List Bool Lia Arith.
From Stdlib Require Import Floats.SpecFloat.
Import ListNotations.

Local Open Scope list_scope.

(* ================================================================= *)
(** ** Scalars: IEEE-754 binary32 *)

Module F32.
Definition prec : Z := 24.
Definition emax : Z := 128.

Definition t : Type := spec_float.

Definition add : t -> t -> t := SFadd prec emax.
Definition sub : t -> t -> t := SFsub prec emax.
Definition mul : t -> t -> t := SFmul prec emax.
Definition div : t -> t -> t := SFdiv prec emax.

(** A Python [int] operand is weakly typed: it is converted to the dtype
    of the array it meets. *)
Definition of_int (n : Z) : t := binary_normalize prec emax n 0 false.

Definition zero : t := S754_zero false.

(** [jnp.finfo(jnp.float32).max] and [.min]. *)
Definition finfo_max : t := Eval cbv in SFmax_float prec emax.
Definition finfo_min : t := Eval cbv in SFopp (SFmax_float prec emax).

Definition isnan (x : t) : bool :=
  match x with S754_nan => true | _ => false end.
Definition isposinf (x : t) : bool :=
  match x with S754_infinity false => true | _ => false end.
Definition isneginf (x : t) : bool :=
  match x with S754_infinity true => true | _ => false end.
Definition isfinite (x : t) : bool :=
  match x with S754_zero _ | S754_finite _ _ _ => true | _ => false end.
Definition iszero (x : t) : bool :=
  match x with S754_zero _ => true | _ => false end.

(** [jnp.nan_to_num(x)] with its defaults [nan=0.0, posinf=None,
    neginf=None]: three successive [where]s. *)
Definition nan_to_num (x : t) : t :=
  let x := if isnan x then zero else x in
  let x := if isposinf x then finfo_max else x in
  let x := if isneginf x then finfo_min else x in
  x.

(** [jnp.sum] of a rank-1 array, accumulated left to right from [0.0]. *)
Definition sum (l : list t) : t := fold_left add l zero.
End F32.

(* ================================================================= *)
(** ** Exceptions *)

Inductive PyError : Type :=
| NameError (name : string)
| ValueError   (* tree structures differ in a multi-tree [tree_map] *)
| TypeError.   (* operand shapes differ in an element-wise operation *)

Inductive Result (A : Type) : Type :=
| Ok (a : A)
| Raise (e : PyError).
Arguments Ok {A} a.
Arguments Raise {A} e.

Definition rbind {A B} (r : Result A) (k : A -> Result B) : Result B :=
  match r with
  | Ok a => k a
  | Raise e => Raise e
  end.

(* ================================================================= *)
(** ** Arrays

    An array is represented by its element buffer in row-major order.  The
    driver only applies element-wise operations to the leaves, so the
    buffer is all that matters; two arrays count as same-shaped when their
    buffers have the same length.  Binary operations between arrays of
    different sizes raise (broadcasting between unequal shapes is not
    modelled); a scalar operand is broadcast. *)

Definition Array : Type := list F32.t.

Fixpoint zip_with (f : F32.t -> F32.t -> F32.t) (x y : Array) : Result Array :=
  match x, y with
  | [], [] => Ok []
  | a :: x', b :: y' => rbind (zip_with f x' y') (fun r => Ok (f a b :: r))
  | _, _ => Raise TypeError
  end.

Module Arr.
(** [x + y], [x - y] for arrays [x], [y]. *)
Definition add (x y : Array) : Result Array := zip_with F32.add x y.
Definition sub (x y : Array) : Result Array := zip_with F32.sub x y.
(** [x * s], [x / s] for an array [x] and a scalar [s]. *)
Definition mul_scalar (x : Array) (s : F32.t) : Array :=
  map (fun v => F32.mul v s) x.
Definition div_scalar (x : Array) (s : F32.t) : Array :=
  map (fun v => F32.div v s) x.
Definition nan_to_num (x : Array) : Array := map F32.nan_to_num x.
End Arr.

(* ================================================================= *)
(** ** params.py: the [NetParams] dataclass as a pytree

    The record is polymorphic in the leaf type so that the shape of a tree
    (the sizes of its leaves) is itself a tree. *)

Record NetParamsOf (A : Type) : Type := mkNetParams {
  _V : list A;
  _b : list A;
  _W : list A;
  _c : list A;
  _w_alpha : A;
  _g_alpha : A;
  _Sigma_alpha : A;
  _pi_alpha : A;
  _omega : A
}.
Arguments mkNetParams {A}.
Arguments _V {A}. Arguments _b {A}. Arguments _W {A}. Arguments _c {A}.
Arguments _w_alpha {A}. Arguments _g_alpha {A}. Arguments _Sigma_alpha {A}.
Arguments _pi_alpha {A}. Arguments _omega {A}.

Definition NetParams : Type := NetParamsOf Array.

(** [jax.tree_util.tree_leaves]. *)
Definition tree_leaves {A} (p : NetParamsOf A) : list A :=
  _V p ++ _b p ++ _W p ++ _c p ++
  [_w_alpha p; _g_alpha p; _Sigma_alpha p; _pi_alpha p; _omega p].

(** [jax.tree_util.tree_structure]: for this dataclass, the lengths of the
    four sequence fields. *)
Definition tree_structure {A} (p : NetParamsOf A) : list nat :=
  [length (_V p); length (_b p); length (_W p); length (_c p)].

Definition tree_structure_eqb {A B} (p : NetParamsOf A) (q : NetParamsOf B)
    : bool :=
  forallb (fun '(m, n) => Nat.eqb m n)
    (combine (tree_structure p) (tree_structure q)).

(** [jax.tree_util.tree_map(f, tree)]. *)
Definition tree_map {A B} (f : A -> B) (p : NetParamsOf A) : NetParamsOf B :=
  mkNetParams (map f (_V p)) (map f (_b p)) (map f (_W p)) (map f (_c p))
    (f (_w_alpha p)) (f (_g_alpha p)) (f (_Sigma_alpha p))
    (f (_pi_alpha p)) (f (_omega p)).

(** Leaves of two sequences of equal length, pairwise. *)
Fixpoint map2_leaves {A B C} (f : A -> B -> Result C)
    (l1 : list A) (l2 : list B) : Result (list C) :=
  match l1, l2 with
  | a :: l1', b :: l2' =>
      rbind (f a b) (fun c =>
      rbind (map2_leaves f l1' l2') (fun r => Ok (c :: r)))
  | _, _ => Ok []
  end.

(** [jax.tree_util.tree_map(f, tree, rest)]: the tree structures are
    compared first ([ValueError] when they differ), then [f] is applied
    to the leaves pairwise; an exception of [f] propagates. *)
Definition tree_map2 {A B C} (f : A -> B -> Result C)
    (p : NetParamsOf A) (q : NetParamsOf B) : Result (NetParamsOf C) :=
  if tree_structure_eqb p q then
    rbind (map2_leaves f (_V p) (_V q)) (fun V =>
    rbind (map2_leaves f (_b p) (_b q)) (fun b =>
    rbind (map2_leaves f (_W p) (_W q)) (fun W =>
    rbind (map2_leaves f (_c p) (_c q)) (fun c =>
    rbind (f (_w_alpha p) (_w_alpha q)) (fun w_alpha =>
    rbind (f (_g_alpha p) (_g_alpha q)) (fun g_alpha =>
    rbind (f (_Sigma_alpha p) (_Sigma_alpha q)) (fun Sigma_alpha =>
    rbind (f (_pi_alpha p) (_pi_alpha q)) (fun pi_alpha =>
    rbind (f (_omega p) (_omega q)) (fun omega =>
    Ok (mkNetParams V b W c w_alpha g_alpha Sigma_alpha pi_alpha omega))))))))))
  else Raise ValueError.

(** The shape of a tree: the size of every leaf, in place. *)
Definition tree_shape (p : NetParams) : NetParamsOf nat :=
  tree_map (@length F32.t) p.

Definition same_shape (p q : NetParams) : Prop := tree_shape p = tree_shape q.

(* ================================================================= *)
(** ** Effects: an event trace and exceptions

    A computation yields the events it emitted, in order, and either a
    value or the exception that stopped it. *)

Definition M (Ev A : Type) : Type := (list Ev * Result A)%type.

Definition ret {Ev A} (a : A) : M Ev A := ([], Ok a).

Definition bind {Ev A B} (m : M Ev A) (k : A -> M Ev B) : M Ev B :=
  match m with
  | (tr, Ok a) => let (tr', r) := k a in (tr ++ tr', r)
  | (tr, Raise e) => (tr, Raise e)
  end.

Definition emit {Ev} (e : Ev) : M Ev unit := ([e], Ok tt).
Definition lift {Ev A} (r : Result A) : M Ev A := ([], r).

Definition trace {Ev A} (m : M Ev A) : list Ev := fst m.
Definition outcome {Ev A} (m : M Ev A) : Result A := snd m.

Declare Scope py_scope.
Delimit Scope py_scope with py.
Notation "x <- m ;; k" := (bind m (fun x => k))
  (at level 61, m at next level, right associativity) : py_scope.
Notation "' pat <- m ;; k" := (bind m (fun x => let 'pat := x in k))
  (at level 61, pat pattern, m at next level, right associativity) : py_scope.

(** [jax.lax.scan(f, init, None, length)]: a strict left-to-right loop that
    threads the carry and stacks the per-step outputs.  (The check that
    [f] returns a carry of the type it was given is met by construction for
    the two accumulators, whose update keeps their shape.) *)
Fixpoint scan {Ev C Y} (f : C -> unit -> M Ev (C * Y)) (init : C)
    (length : nat) : M Ev (C * list Y) :=
  match length with
  | O => ret (init, [])
  | S n =>
      (' (carry, y) <- f init tt ;;
       ' (carry', ys) <- scan f carry n ;;
       ret (carry', y :: ys))%py
  end.

(** [for i in range(start, start + n): state = body(i, state)]. *)
Fixpoint for_range {Ev St} (start n : nat) (body : nat -> St -> M Ev St)
    (st : St) : M Ev St :=
  match n with
  | O => ret st
  | S n' => (st' <- body start st ;; for_range (S start) n' body st')%py
  end.

(** Name resolution at run time: a name that is neither a local of the
    running function nor a global of its module raises [NameError]
    (no Python builtin is called [plt]). *)
Definition load_name (locals globals : list string) (name : string)
    : Result unit :=
  if existsb (String.eqb name) (locals ++ globals) then Ok tt
  else Raise (NameError name).

(** The names bound at module level in [driver.py]: its [import]
    statements and the class it defines. *)
Definition driver_globals : list string :=
  ["jnp"; "np"; "jax"; "optax"; "Sequence"; "Union"; "tqdm"; "h5py";
   "Sampler"; "Hamiltonian"; "FermiNet"; "NetParams"; "NNQS"]%string.

(* ================================================================= *)
(** ** driver.py *)

Section Driver.

(** Opaque data of the collaborators: PRNG keys, walker configurations,
    log-amplitudes and the optimizer's state. *)
Context {Seed Cfg LogPsi OptState : Type}.

(** [jax.random.split(key)], unpacked into its two halves in order, and
    [jax.random.PRNGKey]. *)
Variable split : Seed -> Seed * Seed.
Variable PRNGKey : Z -> Seed.

(** [jnp.concatenate(parts, axis=0)] on walker configurations. *)
Variable concatenate : list Cfg -> Cfg.

Record Sampler : Type := {
  next_sample : LogPsi -> NetParams -> Cfg -> Seed -> Cfg * LogPsi * NetParams
}.

Record Hamiltonian : Type := {
  calc_local_energy : NetParams -> Cfg -> F32.t
}.

Record FermiNet : Type := {
  init_walker_config : F32.t -> Seed -> list Cfg;
  apply : NetParams -> Cfg -> LogPsi
}.

(** An optax gradient transformation. *)
Record Optimizer : Type := {
  init : NetParams -> OptState;
  update : NetParams -> OptState -> NetParams -> NetParams * OptState
}.

(** The fields of an [NNQS] instance.  [batch_size] is used as the length
    of the scan and is a natural number here. *)
Record NNQS : Type := {
  _sampler : Sampler;
  _hamiltonian : Hamiltonian;
  _ferminet : FermiNet;
  _batch_size : nat
}.

Definition sampler (self : NNQS) : Sampler := _sampler self.
Definition hamiltonian (self : NNQS) : Hamiltonian := _hamiltonian self.
Definition ferminet (self : NNQS) : FermiNet := _ferminet self.
Definition batch_size (self : NNQS) : nat := _batch_size self.

(** Every call to a collaborator or to the PRNG, and every entry into
    [calc_local_energies], with its arguments. *)
Inductive Event : Type :=
| EvSplit (key : Seed)
| EvCalcLocalEnergy (params : NetParams) (walker_cfg : Cfg)
| EvNextSample (log_psi : LogPsi) (params : NetParams) (walker_cfg : Cfg)
    (seed : Seed)
| EvInitWalkerConfig (sigma : F32.t) (key : Seed)
| EvApply (params : NetParams) (walker_cfg : Cfg)
| EvCalcLocalEnergies (walker_cfg : Cfg) (log_psi : LogPsi)
    (params : NetParams) (seed : Seed)
| EvOptimizerUpdate (grads : NetParams) (params : NetParams).

Definition Py : Type -> Type := M Event.

Definition call {A} (e : Event) (result : A) : Py A :=
  (_ <- emit e ;; ret result)%py.

(** The carry of the scan: [(log_psi, params, walker_cfg, sum_O,
    sum_O_times_local_energy, seed)]. *)
Definition Carry : Type :=
  (LogPsi * NetParams * Cfg * NetParams * NetParams * Seed)%type.

(** [NNQS.calc_local_energy_kernel] *)
Definition calc_local_energy_kernel (self : NNQS) (carry : Carry) (x : unit)
    : Py (Carry * F32.t) :=
  let '(log_psi, params, walker_cfg, sum_O, sum_O_times_local_energy, seed) :=
    carry in
  (' (subseed, seed) <- call (EvSplit seed) (split seed) ;;
   local_energy <-
     call (EvCalcLocalEnergy params walker_cfg)
          (calc_local_energy (hamiltonian self) params walker_cfg) ;;
   ' (next_walker_cfg, next_log_psi, next_O) <-
     call (EvNextSample log_psi params walker_cfg seed)
          (next_sample (sampler self) log_psi params walker_cfg seed) ;;
   sum_O <- lift (tree_map2 (fun x y => Arr.add x y) sum_O next_O) ;;
   sum_O_times_local_energy <-
     lift (tree_map2
             (fun x y => Arr.add x (Arr.mul_scalar y local_energy))
             sum_O_times_local_energy next_O) ;;
   ret ((next_log_psi, params, next_walker_cfg, sum_O,
         sum_O_times_local_energy, subseed),
        local_energy))%py.

(** The carry that [calc_local_energies] builds before the scan
    (lines 110-117): both accumulators are [params] times the integer
    [0], leaf by leaf. *)
Definition init_carry (init_log_psi : LogPsi) (params : NetParams)
    (init_walker_cfg : Cfg) (seed : Seed) : Carry :=
  (init_log_psi,
   params,
   init_walker_cfg,
   tree_map (fun x => Arr.mul_scalar x (F32.of_int 0)) params,
   tree_map (fun x => Arr.mul_scalar x (F32.of_int 0)) params,
   seed).

(** [NNQS.calc_local_energies]; [seed = None] stands for a call that
    leaves the keyword out, which takes the default
    [jax.random.PRNGKey(0)].  The source's [O] is written [O_] (Rocq
    reserves [O] for the natural number zero). *)
Definition calc_local_energies (self : NNQS) (init_walker_cfg : Cfg)
    (init_log_psi : LogPsi) (params : NetParams) (seed : option Seed)
    : Py (list F32.t * F32.t * NetParams * NetParams) :=
  let seed := match seed with Some s => s | None => PRNGKey 0 end in
  let carry := init_carry init_log_psi params init_walker_cfg seed in
  (_ <- emit (EvCalcLocalEnergies init_walker_cfg init_log_psi params seed) ;;
   ' (carry, local_energies) <-
     scan (calc_local_energy_kernel self) carry (batch_size self) ;;
   let '(_, _, _, carry3, carry4, _) := carry in
   let E :=
     F32.div (F32.sum local_energies)
             (F32.of_int (Z.of_nat (batch_size self))) in
   let O_ :=
     tree_map
       (fun x => Arr.div_scalar x (F32.of_int (Z.of_nat (batch_size self))))
       carry3 in
   let O_times_local_energy :=
     tree_map
       (fun x => Arr.div_scalar x (F32.of_int (Z.of_nat (batch_size self))))
       carry4 in
   ret (local_energies, E, O_, O_times_local_energy))%py.

(** The gradient of one iteration of [train]:
    [tree_map(lambda x, y: jnp.nan_to_num(x - y * E), O_times_local_energy, O)]. *)
Definition grad_L (E : F32.t) (O_times_local_energy O_ : NetParams)
    : Result NetParams :=
  tree_map2
    (fun x y =>
       rbind (Arr.sub x (Arr.mul_scalar y E))
             (fun d => Ok (Arr.nan_to_num d)))
    O_times_local_energy O_.

(** [optax.apply_updates(params, updates)]. *)
Definition apply_updates (params updates : NetParams) : Result NetParams :=
  tree_map2 (fun p u => Arr.add p u) params updates.

(** The state that one iteration of the loop in [train] rebinds:
    [(params, opt_state, Es, key)]. *)
Definition LoopState : Type :=
  (NetParams * OptState * list F32.t * Seed)%type.

(** The body of [for i in range(n_iters)] in [NNQS.train].  The literal
    [1.0] is written [F32.of_int 1].  The plot
    refreshed when [i % 10 == 0] and the calls to [display],
    [print] and [clear_output] do not touch the loop state and are left
    out. *)
Definition train_body (self : NNQS) (optimizer : Optimizer) (i : nat)
    (st : LoopState) : Py LoopState :=
  let '(params, opt_state, Es, key) := st in
  (' (subkey, key) <- call (EvSplit key) (split key) ;;
   walker_cfg <-
     call (EvInitWalkerConfig (F32.of_int 1) key)
          (init_walker_config (ferminet self) (F32.of_int 1) key) ;;
   let walker_cfg := concatenate walker_cfg in
   ' (subkey, key) <- call (EvSplit key) (split key) ;;
   log_psi <-
     call (EvApply params walker_cfg)
          (apply (ferminet self) params walker_cfg) ;;
   ' (local_energies, E, O_, O_times_local_energy) <-
     calc_local_energies self walker_cfg log_psi params None ;;
   grad_L <- lift (grad_L E O_times_local_energy O_) ;;
   ' (updates, opt_state) <-
     call (EvOptimizerUpdate grad_L params)
          (update optimizer grad_L opt_state params) ;;
   params <- lift (apply_updates params updates) ;;
   let Es := Es ++ [E] in
   ret (params, opt_state, Es, key))%py.

(** Lines 153-194 of [NNQS.train]: the loop and the returned pair. *)
Definition train_loop (self : NNQS) (n_iters : Z) (params : NetParams)
    (optimizer : Optimizer) (opt_state : OptState)
    : Py (NetParams * list F32.t) :=
  let Es : list F32.t := [] in
  let key := PRNGKey 0 in
  (' (params, _, Es, _) <-
     for_range 0 (Z.to_nat n_iters) (train_body self optimizer)
               (params, opt_state, Es, key) ;;
   ret (params, Es))%py.

(** The local names of [train] that are bound when line 151 runs. *)
Definition train_locals : list string :=
  ["self"; "n_iters"; "params"; "optimizer"; "expected_E"; "opt_state";
   "jitted_calc_local_energies"; "display"; "clear_output"]%string.

(** [NNQS.train] *)
Definition train (self : NNQS) (n_iters : Z) (params : NetParams)
    (optimizer : Optimizer) (expected_E : F32.t)
    : Py (NetParams * list F32.t) :=
  let opt_state := init optimizer params in
  (* jitted_calc_local_energies = jax.jit(self.calc_local_energies) *)
  (_ <- lift (load_name train_locals driver_globals "jax") ;;
   (* fig, ax = plt.subplots(dpi=150) *)
   _ <- lift (load_name train_locals driver_globals "plt") ;;
   train_loop self n_iters params optimizer opt_state)%py.

End Driver.

(* ================================================================= *)
(** ** Concrete collaborators

    A small instance on which the driver can be run: PRNG keys are the
    root number together with the path of splits that led to them, the
    walker configuration remembers the key that produced it, the local
    energy is constantly [1.0], the per-step statistic is constantly
    [0.5] and the optimizer is plain gradient descent. *)

Module Stub.
Definition Seed : Type := (Z * list bool)%type.
Definition Cfg : Type := Seed.
Definition LogPsi : Type := F32.t.
Definition OptState : Type := nat.

Definition split (s : Seed) : Seed * Seed :=
  ((fst s, false :: snd s), (fst s, true :: snd s)).
Definition PRNGKey (n : Z) : Seed := (n, []).
Definition concatenate (l : list Cfg) : Cfg := hd (0%Z, []) l.

Definition one : F32.t := Eval cbv in F32.of_int 1.
Definition half : F32.t := Eval cbv in F32.div (F32.of_int 1) (F32.of_int 2).
Definition minus_one : F32.t := Eval cbv in F32.of_int (-1).

Definition the_sampler : @Sampler Seed Cfg LogPsi :=
  {| next_sample := fun log_psi params walker_cfg seed =>
       (seed, log_psi, tree_map (map (fun _ => half)) params) |}.

Definition the_hamiltonian : @Hamiltonian Cfg :=
  {| calc_local_energy := fun params walker_cfg => one |}.

Definition the_ferminet : @FermiNet Seed Cfg LogPsi :=
  {| init_walker_config := fun sigma key => [key];
     apply := fun params walker_cfg => F32.zero |}.

Definition sgd : @Optimizer OptState :=
  {| init := fun params => O;
     update := fun grads opt_state params =>
       (tree_map (fun g => Arr.mul_scalar g minus_one) grads, S opt_state) |}.

Definition nnqs (B : nat) : @NNQS Seed Cfg LogPsi :=
  {| _sampler := the_sampler;
     _hamiltonian := the_hamiltonian;
     _ferminet := the_ferminet;
     _batch_size := B |}.

Definition params0 : NetParams :=
  mkNetParams [[one; half]] [[one]] [] [] [half] [one] [one] [one] [one].

(** Trees of the shape of [params0]: all zero, with one [+inf] element,
    and with one NaN element. *)
Definition zeros : NetParams :=
  mkNetParams [[F32.zero; F32.zero]] [[F32.zero]] [] [] [F32.zero]
    [F32.zero] [F32.zero] [F32.zero] [F32.zero].
Definition with_inf : NetParams :=
  mkNetParams [[one; half]] [[one]] [] [] [S754_infinity false] [one] [one]
    [one] [one].
Definition with_nan : NetParams :=
  mkNetParams [[one; half]] [[one]] [] [] [S754_nan] [one] [one] [one] [one].
End Stub.

(* ================================================================= *)
(** ** Vocabulary of the statements *)

(** Pairwise combination of two sequences, as a total function. *)
Definition zipl {A B C} (g : A -> B -> C) (l1 : list A) (l2 : list B)
    : list C :=
  map (fun ab => g (fst ab) (snd ab)) (combine l1 l2).

(** Element-wise combination of two arrays. *)
Definition pointwise (f : F32.t -> F32.t -> F32.t) (x y : Array) : Array :=
  zipl f x y.

(** Leaf-wise combination of two trees. *)
Definition tree_zip {A B C} (g : A -> B -> C)
    (p : NetParamsOf A) (q : NetParamsOf B) : NetParamsOf C :=
  mkNetParams (zipl g (_V p) (_V q)) (zipl g (_b p) (_b q))
    (zipl g (_W p) (_W q)) (zipl g (_c p) (_c q))
    (g (_w_alpha p) (_w_alpha q)) (g (_g_alpha p) (_g_alpha q))
    (g (_Sigma_alpha p) (_Sigma_alpha q)) (g (_pi_alpha p) (_pi_alpha q))
    (g (_omega p) (_omega q)).

(** Every element of every leaf satisfies [P]. *)
Definition tree_all (P : F32.t -> Prop) (p : NetParams) : Prop :=
  Forall (Forall P) (tree_leaves p).

(** [jnp.mean] of a rank-1 array. *)
Definition mean (l : list F32.t) : F32.t :=
  F32.div (F32.sum l) (F32.of_int (Z.of_nat (length l))).

(** What [jnp.nan_to_num] may do to one element: a NaN becomes zero, an
    infinity becomes the largest finite value of its sign, and a finite
    value is kept. *)
Definition nan_policy (x y : F32.t) : Prop :=
  (F32.isnan x = true -> y = F32.zero) /\
  (F32.isposinf x = true -> y = F32.finfo_max) /\
  (F32.isneginf x = true -> y = F32.finfo_min) /\
  (F32.isfinite x = true -> y = x).

(** The gradient before the numerical-safety substitution:
    [O_times_E[leaf] - O[leaf] * E], leaf by leaf and element by element. *)
Definition raw_grad (E : F32.t) (O_times_local_energy O_ : NetParams)
    : NetParams :=
  tree_zip (fun x y => pointwise F32.sub x (Arr.mul_scalar y E))
    O_times_local_energy O_.

Section Vocabulary.
Context {Seed Cfg LogPsi OptState : Type}.

Definition carry_params (c : @Carry Seed Cfg LogPsi) : NetParams :=
  let '(_, params, _, _, _, _) := c in params.
Definition carry_sum_O (c : @Carry Seed Cfg LogPsi) : NetParams :=
  let '(_, _, _, sum_O, _, _) := c in sum_O.
Definition carry_sum_O_times_local_energy (c : @Carry Seed Cfg LogPsi)
    : NetParams :=
  let '(_, _, _, _, sum_O_times_local_energy, _) := c in
  sum_O_times_local_energy.
Definition carry_seed (c : @Carry Seed Cfg LogPsi) : Seed :=
  let '(_, _, _, _, _, seed) := c in seed.

(** The seeds handed to [sampler.next_sample], in call order. *)
Definition sampler_seeds (tr : list (@Event Seed Cfg LogPsi)) : list Seed :=
  flat_map (fun ev => match ev with
                      | EvNextSample _ _ _ seed => [seed]
                      | _ => []
                      end) tr.

(** The keys handed to [jax.random.split], in call order. *)
Definition split_keys (tr : list (@Event Seed Cfg LogPsi)) : list Seed :=
  flat_map (fun ev => match ev with
                      | EvSplit key => [key]
                      | _ => []
                      end) tr.


(** The [seed] argument of every entry into [calc_local_energies]. *)
Definition batch_seeds (tr : list (@Event Seed Cfg LogPsi)) : list Seed :=
  flat_map (fun ev => match ev with
                      | EvCalcLocalEnergies _ _ _ seed => [seed]
                      | _ => []
                      end) tr.

(** The parameters shown to the Hamiltonian and to the sampler. *)
Definition params_seen (tr : list (@Event Seed Cfg LogPsi)) : list NetParams :=
  flat_map (fun ev => match ev with
                      | EvCalcLocalEnergy params _ => [params]
                      | EvNextSample _ params _ _ => [params]
                      | _ => []
                      end) tr.

(** The gradients handed to [optimizer.update]. *)
Definition grads_updated (tr : list (@Event Seed Cfg LogPsi)) : list NetParams :=
  flat_map (fun ev => match ev with
                      | EvOptimizerUpdate grads _ => [grads]
                      | _ => []
                      end) tr.

(** The events of a kernel step. *)
Definition kernel_event (ev : @Event Seed Cfg LogPsi) : Prop :=
  match ev with
  | EvSplit _ | EvCalcLocalEnergy _ _ | EvNextSample _ _ _ _ => True
  | _ => False
  end.

Variable split : Seed -> Seed * Seed.

(** The key reached from [root] by a path of splits: [false] takes the
    first half, [true] the second. *)
Fixpoint derive (root : Seed) (path : list bool) : Seed :=
  match path with
  | [] => root
  | b :: path' =>
      derive (if b then snd (split root) else fst (split root)) path'
  end.

(** Splitting does not collide on the given paths below [root]: two of
    these paths that reach the same key are the same path. *)
Definition collision_free_on (root : Seed) (paths : list (list bool))
    : Prop :=
  forall p q, In p paths -> In q paths ->
    derive root p = derive root q -> p = q.

(** The sampler's statistic has the shape of the parameters. *)
Definition sampler_keeps_shape (self : @NNQS Seed Cfg LogPsi) : Prop :=
  forall log_psi params walker_cfg seed,
    same_shape
      (snd (next_sample (sampler self) log_psi params walker_cfg seed))
      params.

(** [n] kernel steps in sequence: the carry returned by one step is the
    carry given to the next; the emitted local energies are collected in
    order. *)
Inductive Steps (self : @NNQS Seed Cfg LogPsi)
    : @Carry Seed Cfg LogPsi -> nat -> @Carry Seed Cfg LogPsi ->
      list F32.t -> Prop :=
| Steps_O : forall c, Steps self c O c []
| Steps_S : forall c c1 c' e es n,
    outcome (calc_local_energy_kernel split self c tt)
      = Ok (c1, e) ->
    Steps self c1 n c' es ->
    Steps self c (S n) c' (e :: es).

End Vocabulary.

(* ================================================================= *)
(** ** params.py: [NetParams.init] and [total_n_parameters] *)

(** [l[i]] on a Python sequence: a negative index counts from the end,
    and an index out of range raises [IndexError]. *)
Definition py_getitem {A} (l : list A) (i : Z) : option A :=
  if (0 <=? i)%Z then nth_error l (Z.to_nat i)
  else if (- Z.of_nat (length l) <=? i)%Z
       then nth_error l (Z.to_nat (Z.of_nat (length l) + i))
       else None.

(** Sequencing of computations that can only raise [IndexError], which is
    written [None]. *)
Definition obind {A B} (m : option A) (k : A -> option B) : option B :=
  match m with
  | Some a => k a
  | None => None
  end.

Declare Scope idx_scope.
Delimit Scope idx_scope with idx.
Notation "x <- m ;; k" := (obind m (fun x => k))
  (at level 61, m at next level, right associativity) : idx_scope.

(** A list comprehension [[f(i) for i in range]] whose body can raise. *)
Fixpoint comprehension {A} (f : nat -> option A) (range : list nat)
    : option (list A) :=
  match range with
  | [] => Some []
  | i :: range' =>
      (a <- f i ;;
       rest <- comprehension f range' ;;
       Some (a :: rest))%idx
  end.

(** The number of elements of an array of the given shape. *)
Definition shape_size (shape : list nat) : nat := fold_right Nat.mul 1 shape.

Section Params.
Context {Seed : Type}.

(** The two initializers of [NetParams.init]: [init_func], which is
    [jax.nn.initializers.glorot_normal(in_axis=-1, out_axis=-2)], and
    [init_func_for_vectors], which is [jax.random.normal]; each takes a
    key and a shape, and is taken to return for every key and shape.
    Dimensions are natural numbers. *)
Variable init_func : Seed -> list nat -> Array.
Variable init_func_for_vectors : Seed -> list nat -> Array.
Variable PRNGKey : Z -> Seed.

(** [over_factor = 1 / 1] *)
Definition over_factor : F32.t :=
  Eval cbv in F32.div (F32.of_int 1) (F32.of_int 1).

(** [NetParams.init]; [seed = None] takes the default
    [jax.random.PRNGKey(0)]. *)
Definition NetParams_init (n_1 n_2 : list nat) (n_k : nat)
    (n_electrons : list nat) (n_atoms : nat) (seed : option Seed)
    : option NetParams :=
  let seed := match seed with Some s => s | None => PRNGKey 0 end in
  let n_layer := length n_1 in
  let n_total_electrons := list_sum n_electrons in
  (V <- comprehension
          (fun i =>
             if negb (i =? 0) then
               a <- py_getitem n_1 (Z.of_nat i) ;;
               p1 <- py_getitem n_1 (Z.of_nat i - 1) ;;
               p2 <- py_getitem n_2 (Z.of_nat i - 1) ;;
               Some (Arr.mul_scalar (init_func seed [a; 3 * p1 + 2 * p2])
                       over_factor)
             else
               a <- py_getitem n_1 (Z.of_nat i) ;;
               Some (Arr.mul_scalar
                       (init_func seed [a; 3 * 4 * n_atoms + 2 * 4])
                       over_factor))
          (seq 0 n_layer) ;;
   b <- comprehension
          (fun i =>
             a <- py_getitem n_1 (Z.of_nat i) ;;
             Some (Arr.mul_scalar (init_func_for_vectors seed [a])
                     over_factor))
          (seq 0 n_layer) ;;
   W <- comprehension
          (fun i =>
             if negb (i =? 0) then
               a <- py_getitem n_2 (Z.of_nat i) ;;
               p2 <- py_getitem n_2 (Z.of_nat i - 1) ;;
               Some (Arr.mul_scalar (init_func seed [a; p2]) over_factor)
             else
               a <- py_getitem n_2 (Z.of_nat i) ;;
               Some (Arr.mul_scalar (init_func seed [a; 4]) over_factor))
          (seq 0 n_layer) ;;
   c <- comprehension
          (fun i =>
             a <- py_getitem n_2 (Z.of_nat i) ;;
             Some (Arr.mul_scalar (init_func_for_vectors seed [a])
                     over_factor))
          (seq 0 n_layer) ;;
   last_n_1 <- py_getitem n_1 (-1) ;;
   let w_alpha :=
     Arr.mul_scalar
       (init_func_for_vectors seed [n_k; n_total_electrons; last_n_1])
       over_factor in
   let g_alpha :=
     Arr.mul_scalar (init_func_for_vectors seed [n_k; n_total_electrons])
       over_factor in
   let Sigma_alpha :=
     Arr.mul_scalar
       (init_func_for_vectors seed [n_k; n_total_electrons; n_atoms; 3; 3])
       over_factor in
   let pi_alpha :=
     Arr.mul_scalar
       (init_func_for_vectors seed [n_k; n_total_electrons; n_atoms])
       over_factor in
   let omega :=
     Arr.mul_scalar (init_func_for_vectors seed [n_k]) over_factor in
   Some (mkNetParams V b W c w_alpha g_alpha Sigma_alpha pi_alpha omega))%idx.

End Params.

(** The read-only properties [V], [b], [W], [c], [w_alpha], [g_alpha],
    [Sigma_alpha], [pi_alpha] and [omega] return the fields [_V], ...,
    [_omega]; [x.size] of an array is the length of its buffer. *)
Definition total_n_parameters (self : NetParams) : nat :=
  let n_parameters := 0 in
  let n_parameters := n_parameters + list_sum (map (@length F32.t) (_V self)) in
  let n_parameters := n_parameters + list_sum (map (@length F32.t) (_b self)) in
  let n_parameters := n_parameters + list_sum (map (@length F32.t) (_W self)) in
  let n_parameters := n_parameters + list_sum (map (@length F32.t) (_c self)) in
  let n_parameters := n_parameters + length (_w_alpha self) in
  let n_parameters := n_parameters + length (_g_alpha self) in
  let n_parameters := n_parameters + length (_Sigma_alpha self) in
  let n_parameters := n_parameters + length (_pi_alpha self) in
  let n_parameters := n_parameters + length (_omega self) in
  n_parameters.

(** Initializers for running [NetParams.init]: arrays of the requested
    size filled with a constant. *)
Module StubInit.
Definition glorot (seed : Stub.Seed) (shape : list nat) : Array :=
  repeat Stub.half (shape_size shape).
Definition normal (seed : Stub.Seed) (shape : list nat) : Array :=
  repeat Stub.one (shape_size shape).
End StubInit.

(** Two more instances of the driver: one whose Hamiltonian returns NaN
    at every configuration, and one whose sampler returns a statistic
    with no layer at all. *)
Module StubEdge.
Definition nan_hamiltonian : @Hamiltonian Stub.Cfg :=
  {| calc_local_energy := fun params walker_cfg => S754_nan |}.

Definition nnqs_nan (B : nat) : @NNQS Stub.Seed Stub.Cfg Stub.LogPsi :=
  {| _sampler := Stub.the_sampler;
     _hamiltonian := nan_hamiltonian;
     _ferminet := Stub.the_ferminet;
     _batch_size := B |}.

Definition flat_sampler : @Sampler Stub.Seed Stub.Cfg Stub.LogPsi :=
  {| next_sample := fun log_psi params walker_cfg seed =>
       (seed, log_psi,
        mkNetParams [] [] [] [] [Stub.half] [Stub.one] [Stub.one] [Stub.one]
          [Stub.one]) |}.

Definition nnqs_flat (B : nat) : @NNQS Stub.Seed Stub.Cfg Stub.LogPsi :=
  {| _sampler := flat_sampler;
     _hamiltonian := Stub.the_hamiltonian;
     _ferminet := Stub.the_ferminet;
     _batch_size := B |}.
End StubEdge.

(* ================================================================= *)
(** ** Vocabulary of the statements on the rest of the code *)

(** A map over a sequence that also sees the element before, starting
    from [prev]. *)
Fixpoint map_with_prev {A B} (f : A -> A -> B) (prev : A) (l : list A)
    : list B :=
  match l with
  | [] => []
  | x :: l' => f prev x :: map_with_prev f x l'
  end.

(** The number of weights and biases of the layers, layer by layer: a
    layer of widths [(a, b)] fed by widths [(p1, p2)] has an [a] by
    [3 * p1 + 2 * p2] matrix, [a] biases, a [b] by [p2] matrix and [b]
    biases. *)
Fixpoint layers_n_parameters (prev : nat * nat) (layers : list (nat * nat))
    : nat :=
  match layers with
  | [] => 0
  | (a, b) :: layers' =>
      a * (3 * fst prev + 2 * snd prev) + a + b * snd prev + b
      + layers_n_parameters (a, b) layers'
  end.

Section MoreVocabulary.
Context {Seed Cfg LogPsi : Type}.

(** The keys handed to [init_walker_config], in call order. *)
Definition walker_keys (tr : list (@Event Seed Cfg LogPsi)) : list Seed :=
  flat_map (fun ev => match ev with
                      | EvInitWalkerConfig _ key => [key]
                      | _ => []
                      end) tr.

Variable split : Seed -> Seed * Seed.

(** The seeds that [n] chained kernel steps hand to the sampler, starting
    from the carry seed [seed]. *)
Fixpoint chain_sampler_seeds (seed : Seed) (n : nat) : list Seed :=
  match n with
  | O => []
  | S n' => snd (split seed) :: chain_sampler_seeds (fst (split seed)) n'
  end.

(** The samples of a batch, without the scan: for each step, the local
    energy of the configuration the step starts from and the statistic of
    the sample the sampler moves to. *)
Fixpoint batch_samples (self : @NNQS Seed Cfg LogPsi) (params : NetParams)
    (log_psi : LogPsi) (walker_cfg : Cfg) (seed : Seed) (n : nat)
    : list (F32.t * NetParams) :=
  match n with
  | O => []
  | S n' =>
      let local_energy :=
        calc_local_energy (hamiltonian self) params walker_cfg in
      let next :=
        next_sample (sampler self) log_psi params walker_cfg
          (snd (split seed)) in
      (local_energy, snd next)
      :: batch_samples self params (snd (fst next)) (fst (fst next))
           (fst (split seed)) n'
  end.

End MoreVocabulary.


(** The places of the keys that [n] iterations of the loop of [train]
    hand to [init_walker_config], when the loop key is at [p]: each
    iteration takes the second half of a split for the walkers and the
    second half of a split of that for the next iteration. *)
Fixpoint walker_paths_from (p : list bool) (n : nat) : list (list bool) :=
  match n with
  | O => []
  | S n' => (p ++ [true]) :: walker_paths_from (p ++ [true; true]) n'
  end.

(** An instance with a finite key type: keys are three bits, read as a
    number below eight, and splitting a key gives the key two further
    and the key one further, modulo eight. *)
Module StubFinite.
Definition Seed : Type := (bool * bool * bool)%type.
Definition Cfg : Type := unit.
Definition LogPsi : Type := F32.t.

Definition to_nat (k : Seed) : nat :=
  let '(b2, b1, b0) := k in
  (if b2 then 4 else 0) + (if b1 then 2 else 0) + (if b0 then 1 else 0).
Definition of_nat (n : nat) : Seed :=
  (Nat.testbit n 2, Nat.testbit n 1, Nat.testbit n 0).

Definition split (k : Seed) : Seed * Seed :=
  (of_nat (to_nat k + 2), of_nat (to_nat k + 1)).
Definition PRNGKey (n : Z) : Seed := (false, false, false).
Definition concatenate (l : list Cfg) : Cfg := tt.

Definition the_sampler : @Sampler Seed Cfg LogPsi :=
  {| next_sample := fun log_psi params walker_cfg seed =>
       (tt, log_psi, tree_map (map (fun _ => Stub.half)) params) |}.

Definition the_hamiltonian : @Hamiltonian Cfg :=
  {| calc_local_energy := fun params walker_cfg => Stub.one |}.

Definition the_ferminet : @FermiNet Seed Cfg LogPsi :=
  {| init_walker_config := fun sigma key => [tt];
     apply := fun params walker_cfg => F32.zero |}.

Definition nnqs (B : nat) : @NNQS Seed Cfg LogPsi :=
  {| _sampler := the_sampler;
     _hamiltonian := the_hamiltonian;
     _ferminet := the_ferminet;
     _batch_size := B |}.
End StubFinite.

(** Adding one sample to the pair of accumulators. *)
Definition add_sample (acc : NetParams * NetParams)
    (sample : F32.t * NetParams) : NetParams * NetParams :=
  (tree_zip (pointwise F32.add) (fst acc) (snd sample),
   tree_zip (fun x y => pointwise F32.add x (Arr.mul_scalar y (fst sample)))
     (snd acc) (snd sample)).

(* ================================================================= *)
(** ** Sequences, arrays and trees *)

Lemma zipl_length {A B C} (g : A -> B -> C) l1 l2 :
  length l1 = length l2 -> length (zipl g l1 l2) = length l1.
Proof.
  intros H. unfold zipl. rewrite length_map, length_combine. lia.
Qed.

Lemma zipl_cons {A B C} (g : A -> B -> C) a l1 b l2 :
  zipl g (a :: l1) (b :: l2) = g a b :: zipl g l1 l2.
Proof. reflexivity. Qed.

(** Zipping two concatenations whose first parts have one length. *)
Lemma zipl_app {A B C} (g : A -> B -> C) xs xs' ys ys' :
  length xs = length ys ->
  zipl g (xs ++ xs') (ys ++ ys') = zipl g xs ys ++ zipl g xs' ys'.
Proof.
  revert ys. induction xs as [|x xs IH]; intros [|y ys] Hlen;
    try discriminate Hlen; [reflexivity|].
  cbn [app]. rewrite !zipl_cons, IH by (simpl in Hlen; lia). reflexivity.
Qed.

Lemma zip_with_ok f x y :
  length x = length y -> zip_with f x y = Ok (pointwise f x y).
Proof.
  revert y. induction x as [|a x IH]; intros [|b y] H; simpl in *;
    try discriminate; [reflexivity|].
  rewrite IH by lia. reflexivity.
Qed.

Lemma pointwise_length f x y :
  length x = length y -> length (pointwise f x y) = length x.
Proof. apply zipl_length. Qed.

Lemma map_length_eq_Forall2 {A B} (l1 : list (list A)) (l2 : list (list B)) :
  map (@length A) l1 = map (@length B) l2 ->
  Forall2 (fun a b => length a = length b) l1 l2.
Proof.
  revert l2. induction l1 as [|a l1 IH]; intros [|b l2] H; simpl in *;
    try discriminate; constructor.
  - congruence.
  - apply IH. congruence.
Qed.

Lemma Forall2_same_length {A B} (R : A -> B -> Prop) xs ys
    (H : Forall2 R xs ys) :
  length xs = length ys.
Proof. induction H as [|x y xs ys _ _ IH]; simpl; [|rewrite IH]; reflexivity. Qed.

Lemma map2_leaves_ok {A B C} (R : A -> B -> Prop)
    (f : A -> B -> Result C) (g : A -> B -> C) l1 l2 :
  (forall a b, R a b -> f a b = Ok (g a b)) ->
  Forall2 R l1 l2 ->
  map2_leaves f l1 l2 = Ok (zipl g l1 l2).
Proof.
  intros Hf H. induction H as [|a b l1 l2 Hab _ IH]; simpl; [reflexivity|].
  rewrite (Hf _ _ Hab). simpl. rewrite IH. reflexivity.
Qed.

(** What [same_shape] says field by field. *)
Lemma same_shape_fields (p q : NetParams) :
  same_shape p q ->
  Forall2 (fun a b => length a = length b) (_V p) (_V q) /\
  Forall2 (fun a b => length a = length b) (_b p) (_b q) /\
  Forall2 (fun a b => length a = length b) (_W p) (_W q) /\
  Forall2 (fun a b => length a = length b) (_c p) (_c q) /\
  length (_w_alpha p) = length (_w_alpha q) /\
  length (_g_alpha p) = length (_g_alpha q) /\
  length (_Sigma_alpha p) = length (_Sigma_alpha q) /\
  length (_pi_alpha p) = length (_pi_alpha q) /\
  length (_omega p) = length (_omega q).
Proof.
  unfold same_shape, tree_shape, tree_map. intros H.
  injection H as HV Hb HW Hc H1 H2 H3 H4 H5.
  repeat split; try assumption; apply map_length_eq_Forall2; assumption.
Qed.

Lemma same_shape_sym p q : same_shape p q -> same_shape q p.
Proof. unfold same_shape. congruence. Qed.

Lemma same_shape_trans p q r :
  same_shape p q -> same_shape q r -> same_shape p r.
Proof. unfold same_shape. congruence. Qed.

Lemma same_shape_structure (p q : NetParams) :
  same_shape p q -> tree_structure_eqb p q = true.
Proof.
  intros H. destruct (same_shape_fields p q H) as (HV & Hb & HW & Hc & _).
  apply Forall2_same_length in HV, Hb, HW, Hc.
  unfold tree_structure_eqb, tree_structure.
  cbn [combine forallb]. unfold Array in *.
  rewrite HV, Hb, HW, Hc, !Nat.eqb_refl. reflexivity.
Qed.

(** On trees of one shape, a multi-tree [tree_map] whose function agrees
    with a total [g] on equal-sized leaves does not raise and yields the
    leaf-wise combination by [g]. *)
Lemma tree_map2_ok (f : Array -> Array -> Result Array)
    (g : Array -> Array -> Array) (p q : NetParams) :
  (forall a b, length a = length b -> f a b = Ok (g a b)) ->
  same_shape p q ->
  tree_map2 f p q = Ok (tree_zip g p q).
Proof.
  intros Hf H. unfold tree_map2. rewrite (same_shape_structure p q H).
  destruct (same_shape_fields p q H)
    as (HV & Hb & HW & Hc & H1 & H2 & H3 & H4 & H5).
  rewrite (map2_leaves_ok _ f g _ _ Hf HV). simpl.
  rewrite (map2_leaves_ok _ f g _ _ Hf Hb). simpl.
  rewrite (map2_leaves_ok _ f g _ _ Hf HW). simpl.
  rewrite (map2_leaves_ok _ f g _ _ Hf Hc). simpl.
  rewrite (Hf _ _ H1), (Hf _ _ H2), (Hf _ _ H3), (Hf _ _ H4), (Hf _ _ H5).
  reflexivity.
Qed.

Lemma map_length_zipl (g : Array -> Array -> Array) (l1 l2 : list Array) :
  (forall a b, length a = length b -> length (g a b) = length a) ->
  Forall2 (fun a b => length a = length b) l1 l2 ->
  map (@length F32.t) (zipl g l1 l2) = map (@length F32.t) l1.
Proof.
  intros Hg H. induction H as [|a b l1 l2 Hab _ IH]; [reflexivity|].
  rewrite zipl_cons. simpl. rewrite IH, (Hg _ _ Hab). reflexivity.
Qed.

Lemma tree_zip_shape (g : Array -> Array -> Array) (p q : NetParams) :
  (forall a b, length a = length b -> length (g a b) = length a) ->
  same_shape p q ->
  same_shape (tree_zip g p q) p.
Proof.
  intros Hg H.
  destruct (same_shape_fields p q H)
    as (HV & Hb & HW & Hc & H1 & H2 & H3 & H4 & H5).
  unfold same_shape, tree_shape, tree_zip, tree_map. simpl.
  rewrite !map_length_zipl by assumption.
  rewrite (Hg _ _ H1), (Hg _ _ H2), (Hg _ _ H3), (Hg _ _ H4), (Hg _ _ H5).
  reflexivity.
Qed.

Lemma tree_map_shape (f : Array -> Array) (p : NetParams) :
  (forall a, length (f a) = length a) ->
  same_shape (tree_map f p) p.
Proof.
  intros Hf. unfold same_shape, tree_shape, tree_map. simpl.
  rewrite !map_map.
  rewrite !(map_ext (fun x => length (f x)) (@length F32.t))
    by (intros; apply Hf).
  rewrite !Hf. reflexivity.
Qed.

Lemma tree_leaves_map {A B} (f : A -> B) (p : NetParamsOf A) :
  tree_leaves (tree_map f p) = map f (tree_leaves p).
Proof.
  unfold tree_leaves, tree_map. simpl. rewrite !map_app. reflexivity.
Qed.

Lemma tree_leaves_zip (g : Array -> Array -> Array) (p q : NetParams) :
  same_shape p q ->
  tree_leaves (tree_zip g p q) = zipl g (tree_leaves p) (tree_leaves q).
Proof.
  intros H.
  destruct (same_shape_fields p q H) as (HV & Hb & HW & Hc & _).
  apply Forall2_same_length in HV, Hb, HW, Hc.
  unfold tree_leaves, tree_zip. simpl.
  rewrite !zipl_app by assumption. reflexivity.
Qed.

(* ================================================================= *)
(** ** Traces and outcomes of sequenced computations *)

Lemma trace_bind {Ev A B} (m : M Ev A) (k : A -> M Ev B) :
  trace (bind m k) =
  trace m ++ match outcome m with Ok a => trace (k a) | Raise _ => [] end.
Proof.
  destruct m as [tr [a|e]]; simpl.
  - destruct (k a); reflexivity.
  - symmetry. apply app_nil_r.
Qed.

Lemma outcome_bind {Ev A B} (m : M Ev A) (k : A -> M Ev B) :
  outcome (bind m k) =
  match outcome m with Ok a => outcome (k a) | Raise e => Raise e end.
Proof.
  destruct m as [tr [a|e]]; simpl; [destruct (k a)|]; reflexivity.
Qed.

(** A property of events holds along [bind m k] when it holds along [m]
    and along every continuation that [m]'s value can start. *)
Lemma Forall_trace_bind {Ev A B} (P : Ev -> Prop) (m : M Ev A)
    (k : A -> M Ev B) :
  Forall P (trace m) ->
  (forall a, outcome m = Ok a -> Forall P (trace (k a))) ->
  Forall P (trace (bind m k)).
Proof.
  intros Hm Hk. rewrite trace_bind. apply Forall_app. split; [exact Hm|].
  destruct (outcome m) as [a|e]; [apply Hk; reflexivity|constructor].
Qed.

Lemma Forall_trace_for_range {Ev St} (P : Ev -> Prop)
    (body : nat -> St -> M Ev St) n :
  (forall i st, Forall P (trace (body i st))) ->
  forall start st, Forall P (trace (for_range start n body st)).
Proof.
  intros Hbody. induction n as [|n IH]; intros start st; simpl.
  - constructor.
  - apply Forall_trace_bind; [apply Hbody|]. intros st' _. apply IH.
Qed.

Section KernelFacts.
Context {Seed Cfg LogPsi OptState : Type}.
Variable split : Seed -> Seed * Seed.
Variable self : @NNQS Seed Cfg LogPsi.

(** One step calls [split], the Hamiltonian and the sampler, in this
    order and with these arguments, whatever happens afterwards. *)
Lemma kernel_trace log_psi params walker_cfg sum_O sum_OE seed :
  trace (calc_local_energy_kernel split self (log_psi, params, walker_cfg, sum_O, sum_OE, seed) tt) =
  [EvSplit seed;
   EvCalcLocalEnergy params walker_cfg;
   EvNextSample log_psi params walker_cfg (snd (split seed))].
Proof.
  unfold calc_local_energy_kernel, call.
  destruct (split seed) as [subseed seed']. simpl.
  destruct (next_sample _ _ _ _ _) as [[ncfg nlp] nO]. simpl.
  destruct (tree_map2 _ sum_O nO); simpl; [|reflexivity].
  destruct (tree_map2 _ sum_OE nO); reflexivity.
Qed.

(** The outcome of one step, in closed form. *)
Lemma kernel_outcome log_psi params walker_cfg sum_O sum_OE seed :
  outcome (calc_local_energy_kernel split self (log_psi, params, walker_cfg, sum_O, sum_OE, seed) tt) =
  let local_energy := calc_local_energy (hamiltonian self) params walker_cfg in
  let next :=
    next_sample (sampler self) log_psi params walker_cfg (snd (split seed)) in
  rbind (tree_map2 (fun x y => Arr.add x y) sum_O (snd next)) (fun sum_O' =>
  rbind (tree_map2 (fun x y => Arr.add x (Arr.mul_scalar y local_energy))
           sum_OE (snd next)) (fun sum_OE' =>
  Ok ((snd (fst next), params, fst (fst next), sum_O', sum_OE',
       fst (split seed)),
      local_energy))).
Proof.
  unfold calc_local_energy_kernel, call.
  destruct (split seed) as [subseed seed']. simpl.
  destruct (next_sample _ _ _ _ _) as [[ncfg nlp] nO]. simpl.
  destruct (tree_map2 _ sum_O nO); simpl; [|reflexivity].
  destruct (tree_map2 _ sum_OE nO); reflexivity.
Qed.

(** When a step returns, the returned carry holds the same parameters and
    the first half of the split. *)
Lemma kernel_ok_inv c c' e :
  outcome (calc_local_energy_kernel split self c tt) = Ok (c', e) ->
  carry_params c' = carry_params c /\
  carry_seed c' = fst (split (carry_seed c)).
Proof.
  destruct c as [[[[[lp p] cfg] sO] sOE] s]. rewrite kernel_outcome.
  cbv zeta. destruct (tree_map2 _ sO _); simpl; [|discriminate].
  destruct (tree_map2 _ sOE _); simpl; [|discriminate].
  intros H. injection H as <- _. split; reflexivity.
Qed.

(** With a sampler whose statistic has the parameters' shape, a step on
    accumulators of that shape returns, and keeps the shape. *)
Lemma kernel_ok c :
  sampler_keeps_shape self ->
  same_shape (carry_sum_O c) (carry_params c) ->
  same_shape (carry_sum_O_times_local_energy c) (carry_params c) ->
  exists c' e,
    outcome (calc_local_energy_kernel split self c tt) = Ok (c', e) /\
    same_shape (carry_sum_O c') (carry_params c') /\
    same_shape (carry_sum_O_times_local_energy c') (carry_params c').
Proof.
  destruct c as [[[[[lp p] cfg] sO] sOE] s].
  cbn [carry_sum_O carry_sum_O_times_local_energy carry_params].
  intros Hs HO HOE. rewrite kernel_outcome. cbv zeta.
  set (next := next_sample _ _ _ _ _).
  assert (Hn : same_shape (snd next) p) by apply Hs.
  set (e := calc_local_energy _ _ _).
  rewrite (tree_map2_ok _ (pointwise F32.add) sO (snd next)).
  2:{ intros a b Hab. apply zip_with_ok, Hab. }
  2:{ eapply same_shape_trans; [exact HO|apply same_shape_sym, Hn]. }
  simpl.
  rewrite (tree_map2_ok _
             (fun x y => pointwise F32.add x (Arr.mul_scalar y e))
             sOE (snd next)).
  2:{ intros a b Hab. apply zip_with_ok.
      unfold Arr.mul_scalar. rewrite length_map. exact Hab. }
  2:{ eapply same_shape_trans; [exact HOE|apply same_shape_sym, Hn]. }
  simpl. eexists _, _. split; [reflexivity|]. simpl. split.
  - eapply same_shape_trans; [|exact HO]. apply tree_zip_shape.
    + intros a b Hab. apply pointwise_length, Hab.
    + eapply same_shape_trans; [exact HO|apply same_shape_sym, Hn].
  - eapply same_shape_trans; [|exact HOE]. apply tree_zip_shape.
    + intros a b Hab. apply pointwise_length.
      unfold Arr.mul_scalar. rewrite length_map. exact Hab.
    + eapply same_shape_trans; [exact HOE|apply same_shape_sym, Hn].
Qed.

End KernelFacts.

(* ================================================================= *)
(** ** The scan *)

Lemma scan_outcome_S {Ev C Y} (f : C -> unit -> M Ev (C * Y)) c n :
  outcome (scan f c (S n)) =
  match outcome (f c tt) with
  | Ok (c1, y) =>
      match outcome (scan f c1 n) with
      | Ok (c', ys) => Ok (c', y :: ys)
      | Raise e => Raise e
      end
  | Raise e => Raise e
  end.
Proof.
  cbn [scan]. rewrite outcome_bind.
  destruct (outcome (f c tt)) as [[c1 y]|e]; [|reflexivity].
  rewrite outcome_bind.
  destruct (outcome (scan f c1 n)) as [[c' ys]|e]; reflexivity.
Qed.

Lemma scan_trace_S {Ev C Y} (f : C -> unit -> M Ev (C * Y)) c n :
  trace (scan f c (S n)) =
  trace (f c tt) ++
  match outcome (f c tt) with
  | Ok (c1, y) => trace (scan f c1 n)
  | Raise _ => []
  end.
Proof.
  cbn [scan]. rewrite trace_bind.
  destruct (outcome (f c tt)) as [[c1 y]|e]; [|reflexivity].
  rewrite trace_bind.
  destruct (outcome (scan f c1 n)) as [[c' ys]|e]; cbn [trace ret fst];
    rewrite app_nil_r; reflexivity.
Qed.

Section ScanFacts.
Context {Seed Cfg LogPsi : Type}.
Variable split : Seed -> Seed * Seed.
Variable self : @NNQS Seed Cfg LogPsi.

(** A scan that returns has made its steps one after the other, and has
    stacked one local energy per step. *)
Lemma scan_steps n : forall c c' es,
  outcome (scan (calc_local_energy_kernel split self) c n) = Ok (c', es) ->
  Steps split self c n c' es /\ length es = n.
Proof.
  induction n as [|n IH]; intros c c' es.
  - cbn. intros H. injection H as <- <-. split; [constructor|reflexivity].
  - rewrite scan_outcome_S.
    destruct (outcome (calc_local_energy_kernel split self c tt))
      as [[c1 e]|err] eqn:Hk; [|discriminate].
    destruct (outcome (scan _ c1 n)) as [[c2 es']|err] eqn:Hs; [|discriminate].
    intros H. injection H as <- <-.
    destruct (IH _ _ _ Hs) as [Hsteps Hlen]. split.
    + econstructor; eassumption.
    + simpl. congruence.
Qed.

(** With a shape-keeping sampler the scan returns, whatever its length. *)
Lemma scan_ok n : forall c,
  sampler_keeps_shape self ->
  same_shape (carry_sum_O c) (carry_params c) ->
  same_shape (carry_sum_O_times_local_energy c) (carry_params c) ->
  exists c' es,
    outcome (scan (calc_local_energy_kernel split self) c n) = Ok (c', es).
Proof.
  induction n as [|n IH]; intros c Hs HO HOE.
  - eexists _, _. reflexivity.
  - destruct (kernel_ok split self c Hs HO HOE) as (c1 & e & Hk & HO1 & HOE1).
    destruct (IH c1 Hs HO1 HOE1) as (c' & es & Hscan).
    exists c', (e :: es). rewrite scan_outcome_S, Hk, Hscan. reflexivity.
Qed.

(** Steps keep the parameters of the carry. *)
Lemma Steps_params c n c' es :
  Steps split self c n c' es -> carry_params c' = carry_params c.
Proof.
  induction 1 as [|c c1 c' e es n Hk _ IH]; [reflexivity|].
  rewrite IH. apply (kernel_ok_inv split self c c1 e Hk).
Qed.

(** All along a scan, the Hamiltonian and the sampler see the parameters
    of the first carry. *)
Lemma scan_params_seen n : forall c,
  Forall (fun p => p = carry_params c)
    (params_seen (trace (scan (calc_local_energy_kernel split self) c n))).
Proof.
  induction n as [|n IH]; intros c.
  - constructor.
  - rewrite scan_trace_S. unfold params_seen. rewrite flat_map_app.
    apply Forall_app. split.
    + destruct c as [[[[[lp p] cfg] sO] sOE] s]. rewrite kernel_trace.
      cbn. repeat constructor.
    + destruct (outcome (calc_local_energy_kernel split self c tt))
        as [[c1 e]|err] eqn:Hk; [|constructor].
      destruct (kernel_ok_inv split self c c1 e Hk) as [<- _]. apply IH.
Qed.

(** A scan that returns has called the sampler once per step. *)
Lemma scan_sampler_count n : forall c c' es,
  outcome (scan (calc_local_energy_kernel split self) c n) = Ok (c', es) ->
  length (sampler_seeds
            (trace (scan (calc_local_energy_kernel split self) c n))) = n.
Proof.
  induction n as [|n IH]; intros c c' es.
  - reflexivity.
  - rewrite scan_outcome_S, scan_trace_S.
    destruct (outcome (calc_local_energy_kernel split self c tt))
      as [[c1 e]|err] eqn:Hk; [|discriminate].
    destruct (outcome (scan _ c1 n)) as [[c2 es']|err] eqn:Hs; [|discriminate].
    intros _. unfold sampler_seeds. rewrite flat_map_app, length_app.
    destruct c as [[[[[lp p] cfg] sO] sOE] s]. rewrite kernel_trace.
    cbn [flat_map app length]. rewrite Nat.add_1_l. f_equal.
    exact (IH _ _ _ Hs).
Qed.

End ScanFacts.

(* ================================================================= *)
(** ** Paths of splits *)




Lemma walker_paths_longer n : forall p x,
  In x (walker_paths_from p n) -> length p < length x.
Proof.
  induction n as [|n IH]; intros p x; [intros []|].
  cbn [walker_paths_from]. intros [<-|H].
  - rewrite length_app. simpl. lia.
  - apply IH in H. rewrite length_app in H. simpl in H. lia.
Qed.

(** The places of the walker keys are pairwise distinct. *)
Lemma walker_paths_NoDup n : forall p, NoDup (walker_paths_from p n).
Proof.
  induction n as [|n IH]; intros p; [constructor|].
  cbn [walker_paths_from]. constructor; [|apply IH].
  intros H. apply walker_paths_longer in H. rewrite !length_app in H.
  simpl in H. lia.
Qed.

Lemma walker_paths_incl k : forall n p,
  k <= n -> incl (walker_paths_from p k) (walker_paths_from p n).
Proof.
  induction k as [|k IH]; intros n p Hle; [intros x []|].
  destruct n as [|n]; [lia|].
  cbn [walker_paths_from]. intros x [<-|H].
  - left; reflexivity.
  - right. apply (IH n); [lia|exact H].
Qed.

(* ================================================================= *)
(** ** Seeds along a batch *)

Section SeedFacts.
Context {Seed Cfg LogPsi : Type}.
Variable split : Seed -> Seed * Seed.
Variable self : @NNQS Seed Cfg LogPsi.

Lemma derive_app root p q :
  derive split root (p ++ q) = derive split (derive split root p) q.
Proof.
  revert root. induction p as [|b p IH]; intros root; [reflexivity|].
  simpl. apply IH.
Qed.




(** Restricting the paths keeps splitting collision-free on them. *)
Lemma collision_free_on_incl root (small big : list (list bool)) :
  incl small big ->
  collision_free_on split root big -> collision_free_on split root small.
Proof.
  intros Hincl Hfree u v Hu Hv. apply Hfree; apply Hincl; assumption.
Qed.

(** Distinct paths on which splitting does not collide reach distinct
    keys. *)
Lemma collision_free_on_NoDup root (paths : list (list bool)) :
  NoDup paths -> collision_free_on split root paths ->
  NoDup (map (derive split root) paths).
Proof.
  induction 1 as [|u paths Hnotin Hnd IH]; intros Hfree; [constructor|].
  cbn [map]. constructor.
  - intros Hin. apply in_map_iff in Hin. destruct Hin as (v & Hv & Hvin).
    apply Hnotin. rewrite (Hfree u v); [exact Hvin|left; reflexivity| |].
    + right; exact Hvin.
    + symmetry; exact Hv.
  - apply IH. apply (collision_free_on_incl root paths (u :: paths));
      [apply incl_tl, incl_refl|exact Hfree].
Qed.

(** Conversely, paths whose keys are pairwise distinct do not collide. *)
Lemma NoDup_collision_free_on root (paths : list (list bool)) :
  NoDup (map (derive split root) paths) ->
  collision_free_on split root paths.
Proof.
  induction paths as [|u paths IH]; intros Hnd; [intros ? ? []|].
  cbn [map] in Hnd. inversion Hnd as [|? ? Hnotin Hrest]; subst.
  intros v w [<-|Hv] [<-|Hw] Heq.
  - reflexivity.
  - exfalso. apply Hnotin. rewrite Heq. apply in_map, Hw.
  - exfalso. apply Hnotin. rewrite <- Heq. apply in_map, Hv.
  - apply (IH Hrest); assumption.
Qed.


End SeedFacts.

(* ================================================================= *)
(** ** The batch evaluator *)

Section BatchFacts.
Context {Seed Cfg LogPsi : Type}.
Variable split : Seed -> Seed * Seed.
Variable PRNGKey : Z -> Seed.
Variable self : @NNQS Seed Cfg LogPsi.

Lemma init_carry_shape (log_psi : LogPsi) params (walker_cfg : Cfg)
    (seed : Seed) :
  same_shape
    (carry_sum_O (init_carry log_psi params walker_cfg seed))
    (carry_params (init_carry log_psi params walker_cfg seed)) /\
  same_shape
    (carry_sum_O_times_local_energy
       (init_carry log_psi params walker_cfg seed))
    (carry_params (init_carry log_psi params walker_cfg seed)).
Proof.
  cbn. split; apply tree_map_shape; intros a; apply length_map.
Qed.

Lemma calc_local_energies_trace init_walker_cfg init_log_psi params seed :
  let root := match seed with Some s => s | None => PRNGKey 0 end in
  trace (calc_local_energies split PRNGKey self init_walker_cfg init_log_psi
           params seed) =
  EvCalcLocalEnergies init_walker_cfg init_log_psi params root ::
  trace (scan (calc_local_energy_kernel split self)
           (init_carry init_log_psi params init_walker_cfg root)
           (batch_size self)).
Proof.
  intros root. unfold calc_local_energies. fold root.
  rewrite trace_bind. cbn [emit trace outcome fst snd app].
  rewrite trace_bind.
  destruct (outcome (scan _ _ _)) as [[[[[[[lp p] cfg] sO] sOE] s] les]|e];
    cbn [trace ret fst]; rewrite app_nil_r; reflexivity.
Qed.

Lemma calc_local_energies_outcome init_walker_cfg init_log_psi params seed :
  let root := match seed with Some s => s | None => PRNGKey 0 end in
  let B := F32.of_int (Z.of_nat (batch_size self)) in
  outcome (calc_local_energies split PRNGKey self init_walker_cfg
             init_log_psi params seed) =
  match outcome (scan (calc_local_energy_kernel split self)
                   (init_carry init_log_psi params init_walker_cfg root)
                   (batch_size self)) with
  | Ok (carry, local_energies) =>
      Ok (local_energies,
          F32.div (F32.sum local_energies) B,
          tree_map (fun x => Arr.div_scalar x B) (carry_sum_O carry),
          tree_map (fun x => Arr.div_scalar x B)
            (carry_sum_O_times_local_energy carry))
  | Raise e => Raise e
  end.
Proof.
  intros root B. unfold calc_local_energies. fold root.
  rewrite outcome_bind. cbn [emit outcome snd].
  rewrite outcome_bind.
  destruct (outcome (scan _ _ _)) as [[[[[[[lp p] cfg] sO] sOE] s] les]|e];
    reflexivity.
Qed.

(** With a shape-keeping sampler the scan of a batch returns, after one
    sampler call per step. *)
Lemma calc_local_energies_scan_ok
    (init_walker_cfg : Cfg) (init_log_psi : LogPsi) params seed :
  sampler_keeps_shape self ->
  let root := match seed with Some s => s | None => PRNGKey 0 end in
  exists carry local_energies,
    outcome (scan (calc_local_energy_kernel split self)
               (init_carry init_log_psi params init_walker_cfg root)
               (batch_size self)) = Ok (carry, local_energies) /\
    length (sampler_seeds
              (trace (calc_local_energies split PRNGKey self init_walker_cfg
                        init_log_psi params seed))) = batch_size self.
Proof.
  intros Hs root.
  destruct (init_carry_shape init_log_psi params init_walker_cfg root)
    as [HO HOE].
  destruct (scan_ok split self (batch_size self) _ Hs HO HOE)
    as (carry & les & Hscan).
  exists carry, les. split; [exact Hscan|].
  rewrite calc_local_energies_trace. fold root.
  change (sampler_seeds (?e :: ?tr)) with (sampler_seeds tr).
  apply (scan_sampler_count split self _ _ _ _ Hscan).
Qed.

(** ** C2 *)

(** C2.  The batch evaluator runs the kernel [batch_size] times, each
    step on the carry the previous step returned, starting from the
    initial carry; it returns the [batch_size] local energies in order,
    their mean as [E], and the two final accumulators divided leaf by
    leaf by [batch_size]. *)
Theorem calc_local_energies_batch
    init_walker_cfg init_log_psi params seed :
  sampler_keeps_shape self ->
  let root := match seed with Some s => s | None => PRNGKey 0 end in
  let B := F32.of_int (Z.of_nat (batch_size self)) in
  let run :=
    calc_local_energies split PRNGKey self init_walker_cfg init_log_psi
      params seed in
  exists carry local_energies,
    Steps split self
      (init_carry init_log_psi params init_walker_cfg root)
      (batch_size self) carry local_energies /\
    length (sampler_seeds (trace run)) = batch_size self /\
    length local_energies = batch_size self /\
    outcome run =
      Ok (local_energies,
          mean local_energies,
          tree_map (fun x => Arr.div_scalar x B) (carry_sum_O carry),
          tree_map (fun x => Arr.div_scalar x B)
            (carry_sum_O_times_local_energy carry)).
Proof.
  intros Hs root B run.
  destruct (calc_local_energies_scan_ok init_walker_cfg init_log_psi params
              seed Hs) as (carry & les & Hscan & Hcount).
  fold root in Hscan.
  destruct (scan_steps split self _ _ _ _ Hscan) as [Hsteps Hlen].
  exists carry, les. repeat split.
  - exact Hsteps.
  - exact Hcount.
  - exact Hlen.
  - subst run. rewrite calc_local_energies_outcome. fold root.
    rewrite Hscan. unfold mean. rewrite Hlen. reflexivity.
Qed.

End BatchFacts.

(* ================================================================= *)
(** ** The kernel's carry: seed and parameters *)

Section CarryClaims.
Context {Seed Cfg LogPsi : Type}.
Variable split : Seed -> Seed * Seed.
Variable PRNGKey : Z -> Seed.
Variable self : @NNQS Seed Cfg LogPsi.

(** C3.  A kernel step splits the incoming seed once, into two halves
    that play two roles.  One half is the sampler's seed: [next_sample]
    is called with it and it occurs nowhere else in the step.  The other
    half is the seed of the returned carry, from which the later steps
    go on, and the rest of the returned carry is the sample the sampler
    produced.  (The source binds the name [subseed] to the half that goes
    to the carry and rebinds [seed] to the half that goes to the sampler;
    the halves are told apart here by what is done with them.) *)
Theorem kernel_seed_threading
    (log_psi : LogPsi) params (walker_cfg : Cfg) sum_O sum_OE (seed : Seed) :
  let carry := (log_psi, params, walker_cfg, sum_O, sum_OE, seed) in
  let next :=
    next_sample (sampler self) log_psi params walker_cfg (snd (split seed)) in
  trace (calc_local_energy_kernel split self carry tt) =
    [EvSplit seed;
     EvCalcLocalEnergy params walker_cfg;
     EvNextSample log_psi params walker_cfg (snd (split seed))] /\
  forall carry' local_energy,
    outcome (calc_local_energy_kernel split self carry tt)
      = Ok (carry', local_energy) ->
    carry_seed carry' = fst (split seed) /\
    exists sum_O' sum_OE',
      carry' = (snd (fst next), params, fst (fst next), sum_O', sum_OE',
                fst (split seed)).
Proof.
  intros carry next. split; [apply kernel_trace|].
  intros carry' e. subst carry. rewrite kernel_outcome. cbv zeta. fold next.
  destruct (tree_map2 _ sum_O _) as [sO'|]; simpl; [|discriminate].
  destruct (tree_map2 _ sum_OE _) as [sOE'|]; simpl; [|discriminate].
  intros H. injection H as <- _. split; [reflexivity|].
  exists sO', sOE'. reflexivity.
Qed.


(** C9.  The parameters are a frame of the kernel: a step that returns
    leaves them unchanged in the carry, so do any number of steps in
    sequence, and all along a batch the Hamiltonian and the sampler are
    shown the parameters the batch was called with. *)
Theorem kernel_params_frame :
  (forall carry carry' local_energy,
     outcome (calc_local_energy_kernel split self carry tt)
       = Ok (carry', local_energy) ->
     carry_params carry' = carry_params carry) /\
  (forall carry n carry' local_energies,
     Steps split self carry n carry' local_energies ->
     carry_params carry' = carry_params carry) /\
  (forall (init_walker_cfg : Cfg) (init_log_psi : LogPsi) params seed,
     Forall (fun p => p = params)
       (params_seen
          (trace (calc_local_energies split PRNGKey self init_walker_cfg
                    init_log_psi params seed)))).
Proof.
  split; [|split].
  - intros c c' e H. apply (kernel_ok_inv split self c c' e H).
  - intros c n c' es H. apply (Steps_params split self c n c' es H).
  - intros cfg lp params seed. rewrite calc_local_energies_trace. cbv zeta.
    change (params_seen (?e :: ?tr)) with (params_seen tr).
    apply (scan_params_seen split self (batch_size self)
             (init_carry lp params cfg _)).
Qed.

End CarryClaims.

(* ================================================================= *)
(** ** The concrete collaborators meet the assumptions *)

Lemma stub_sampler_keeps_shape B : sampler_keeps_shape (Stub.nnqs B).
Proof.
  intros log_psi params walker_cfg seed. cbn.
  apply tree_map_shape. intros a. apply length_map.
Qed.



(** Nor on the places of the walker keys of four iterations, which are
    the keys 1, 3, 5, 7. *)
Lemma stub_finite_walker_free :
  collision_free_on StubFinite.split (StubFinite.PRNGKey 0)
    (walker_paths_from [] 4).
Proof.
  apply NoDup_collision_free_on. vm_compute.
  repeat (constructor; [simpl; intuition discriminate|]). constructor.
Qed.

Lemma calc_local_energies_batch_witness :
  sampler_keeps_shape (Stub.nnqs 4) /\
  exists carry local_energies,
    Steps Stub.split (Stub.nnqs 4)
      (init_carry F32.zero Stub.params0 (Stub.PRNGKey 7) (Stub.PRNGKey 0))
      4 carry local_energies /\
    length local_energies = 4.
Proof.
  split; [apply stub_sampler_keeps_shape|].
  destruct (calc_local_energies_batch Stub.split Stub.PRNGKey (Stub.nnqs 4)
              (Stub.PRNGKey 7) F32.zero Stub.params0 None
              (stub_sampler_keeps_shape 4))
    as (carry & les & Hsteps & _ & Hlen & _).
  exists carry, les. split; [exact Hsteps|exact Hlen].
Defined.

Lemma kernel_seed_threading_witness :
  exists carry' local_energy,
    outcome (calc_local_energy_kernel Stub.split (Stub.nnqs 1)
               (F32.zero, Stub.params0, Stub.PRNGKey 7, Stub.params0,
                Stub.params0, Stub.PRNGKey 0) tt)
      = Ok (carry', local_energy) /\
    carry_seed carry' = (0%Z, [false]).
Proof.
  eexists _, _. split; [vm_compute; reflexivity|].
  refine (proj1 (proj2 (kernel_seed_threading Stub.split (Stub.nnqs 1)
                          F32.zero Stub.params0 (Stub.PRNGKey 7)
                          Stub.params0 Stub.params0 (Stub.PRNGKey 0))
                   _ _ _)).
  vm_compute. reflexivity.
Defined.


Lemma kernel_params_frame_witness :
  exists carry' local_energy,
    outcome (calc_local_energy_kernel Stub.split (Stub.nnqs 1)
               (F32.zero, Stub.params0, Stub.PRNGKey 7, Stub.params0,
                Stub.params0, Stub.PRNGKey 0) tt)
      = Ok (carry', local_energy) /\
    carry_params carry' = Stub.params0.
Proof.
  eexists _, _. split; [vm_compute; reflexivity|].
  refine (proj1 (kernel_params_frame Stub.split Stub.PRNGKey (Stub.nnqs 1))
            (F32.zero, Stub.params0, Stub.PRNGKey 7, Stub.params0,
             Stub.params0, Stub.PRNGKey 0) _ _ _).
  vm_compute. reflexivity.
Defined.

(* ================================================================= *)
(** ** The gradient estimator *)

Lemma nan_to_num_finite x : F32.isfinite (F32.nan_to_num x) = true.
Proof. destruct x as [s|s| |s m e]; try destruct s; reflexivity. Qed.

Lemma nan_to_num_policy x : nan_policy x (F32.nan_to_num x).
Proof.
  unfold nan_policy.
  destruct x as [s|s| |s m e]; try destruct s; cbn;
    repeat split; intros H; try discriminate H; reflexivity.
Qed.

Lemma mul_zero_of_finite x :
  F32.isfinite x = true -> F32.iszero (F32.mul x (F32.of_int 0)) = true.
Proof. destruct x; intros H; try discriminate H; reflexivity. Qed.

Lemma map_zipl {A B C D} (f : C -> D) (g : A -> B -> C) l1 l2 :
  map f (zipl g l1 l2) = zipl (fun a b => f (g a b)) l1 l2.
Proof. unfold zipl. apply map_map. Qed.

Lemma tree_map_zip {A B C D} (f : C -> D) (g : A -> B -> C) p q :
  tree_map f (tree_zip g p q) = tree_zip (fun a b => f (g a b)) p q.
Proof.
  unfold tree_map, tree_zip. cbn. rewrite !map_zipl. reflexivity.
Qed.

Lemma map2_leaves_inv {A B C} (f : A -> B -> Result C) l1 : forall l2 r,
  map2_leaves f l1 l2 = Ok r ->
  Forall (fun c => exists a b, f a b = Ok c) r.
Proof.
  induction l1 as [|a l1 IH]; intros [|b l2] r; cbn; intros H;
    try (injection H as <-; constructor).
  destruct (f a b) as [c|] eqn:Hf; cbn in H; [|discriminate].
  destruct (map2_leaves f l1 l2) as [r'|] eqn:Hr; cbn in H; [|discriminate].
  injection H as <-. constructor; [eauto|]. eapply IH; eassumption.
Qed.

(** Every leaf of the result of a multi-tree [tree_map] is a value that
    the mapped function returned. *)
Lemma tree_map2_inv {A B C} (f : A -> B -> Result C) p q r :
  tree_map2 f p q = Ok r ->
  Forall (fun c => exists a b, f a b = Ok c) (tree_leaves r).
Proof.
  unfold tree_map2. destruct (tree_structure_eqb p q); [|discriminate].
  destruct (map2_leaves f (_V p) (_V q)) as [V|] eqn:HV; [|discriminate].
  destruct (map2_leaves f (_b p) (_b q)) as [b|] eqn:Hb; [|discriminate].
  destruct (map2_leaves f (_W p) (_W q)) as [W|] eqn:HW; [|discriminate].
  destruct (map2_leaves f (_c p) (_c q)) as [c|] eqn:Hc; [|discriminate].
  cbn [rbind].
  destruct (f (_w_alpha p) _) as [x1|] eqn:H1; [|discriminate].
  destruct (f (_g_alpha p) _) as [x2|] eqn:H2; [|discriminate].
  destruct (f (_Sigma_alpha p) _) as [x3|] eqn:H3; [|discriminate].
  destruct (f (_pi_alpha p) _) as [x4|] eqn:H4; [|discriminate].
  destruct (f (_omega p) _) as [x5|] eqn:H5; [|discriminate].
  cbn [rbind]. intros H. injection H as <-. unfold tree_leaves. cbn.
  repeat (apply Forall_app; split);
    try (eapply map2_leaves_inv; eassumption).
  repeat constructor; eauto.
Qed.

Lemma Forall2_map_same {A B} (R : A -> B -> Prop) (f : A -> B) l :
  (forall x, R x (f x)) -> Forall2 R l (map f l).
Proof. intros H. induction l; constructor; auto. Qed.

Lemma grad_L_closed_form E O_times_local_energy O_ :
  same_shape O_times_local_energy O_ ->
  grad_L E O_times_local_energy O_ =
  Ok (tree_map Arr.nan_to_num (raw_grad E O_times_local_energy O_)).
Proof.
  intros H. unfold grad_L, raw_grad. rewrite tree_map_zip.
  apply tree_map2_ok; [|exact H].
  intros a b Hab. unfold Arr.sub. rewrite zip_with_ok; [reflexivity|].
  unfold Arr.mul_scalar. rewrite length_map. exact Hab.
Qed.

Lemma grad_L_finite E O_times_local_energy O_ g :
  grad_L E O_times_local_energy O_ = Ok g ->
  tree_all (fun x => F32.isfinite x = true) g.
Proof.
  intros H. apply tree_map2_inv in H. unfold tree_all.
  eapply Forall_impl; [|exact H]. intros leaf (a & b & Hab).
  destruct (Arr.sub a _) as [d|]; cbn in Hab; [|discriminate].
  injection Hab as <-. unfold Arr.nan_to_num.
  apply Forall_forall. intros x Hx. apply in_map_iff in Hx.
  destruct Hx as (y & <- & _). apply nan_to_num_finite.
Qed.

(** ** C1 *)

(** C1.  On batch outputs of one shape, the gradient handed on is the
    numerical-safety substitution applied to a tree whose every leaf is
    [O_times_E[leaf] - O[leaf] * E], computed element by element. *)
Theorem grad_L_score_function E O_times_local_energy O_ :
  same_shape O_times_local_energy O_ ->
  grad_L E O_times_local_energy O_ =
    Ok (tree_map Arr.nan_to_num (raw_grad E O_times_local_energy O_)) /\
  tree_leaves (raw_grad E O_times_local_energy O_) =
    zipl (fun x y => pointwise F32.sub x (Arr.mul_scalar y E))
      (tree_leaves O_times_local_energy) (tree_leaves O_).
Proof.
  intros H. split; [apply grad_L_closed_form, H|].
  unfold raw_grad. apply tree_leaves_zip, H.
Qed.

Lemma grad_L_score_function_witness :
  same_shape Stub.params0 Stub.zeros /\
  grad_L Stub.one Stub.params0 Stub.zeros = Ok Stub.params0.
Proof.
  split; [reflexivity|].
  rewrite (proj1 (grad_L_score_function Stub.one Stub.params0 Stub.zeros
                    eq_refl)).
  vm_compute. reflexivity.
Defined.

(** ** C5 *)

(** C5, as amended.  Every element of the gradient handed on is the image
    of the corresponding element of [O_times_E - O * E] under the
    substitution: zero for a NaN, the largest finite value of its sign for
    an infinity, the element itself when it is finite. *)
Theorem grad_L_nan_policy E O_times_local_energy O_ :
  same_shape O_times_local_energy O_ ->
  exists g,
    grad_L E O_times_local_energy O_ = Ok g /\
    Forall2 (Forall2 nan_policy)
      (tree_leaves (raw_grad E O_times_local_energy O_)) (tree_leaves g).
Proof.
  intros H. eexists. split; [apply grad_L_closed_form, H|].
  rewrite tree_leaves_map. apply Forall2_map_same. intros leaf.
  apply Forall2_map_same, nan_to_num_policy.
Qed.

Lemma grad_L_nan_policy_witness :
  same_shape Stub.with_nan Stub.zeros /\
  exists g,
    grad_L Stub.one Stub.with_nan Stub.zeros = Ok g /\
    Forall2 (Forall2 nan_policy)
      (tree_leaves (raw_grad Stub.one Stub.with_nan Stub.zeros))
      (tree_leaves g).
Proof.
  split; [reflexivity|].
  apply (grad_L_nan_policy Stub.one Stub.with_nan Stub.zeros eq_refl).
Defined.

(** C5 as stated fails: an element of [O_times_E - O * E] that is a
    number, [+inf], reaches the optimizer as another number. *)
Lemma grad_L_number_not_kept :
  let raw := raw_grad Stub.one Stub.with_inf Stub.zeros in
  exists g,
    grad_L Stub.one Stub.with_inf Stub.zeros = Ok g /\
    _w_alpha raw = [S754_infinity false] /\
    Forall (fun x => F32.isnan x = false) (_w_alpha raw) /\
    _w_alpha g = [F32.finfo_max] /\
    _w_alpha g <> _w_alpha raw.
Proof.
  eexists. split; [vm_compute; reflexivity|].
  split; [vm_compute; reflexivity|].
  split; [vm_compute; repeat constructor|].
  split; [vm_compute; reflexivity|]. vm_compute. discriminate.
Qed.

(* ================================================================= *)
(** ** The accumulators at the start of a batch *)

Section InitClaims.
Context {Seed Cfg LogPsi : Type}.

(** C6, as amended.  At the start of a batch both accumulators have the
    shape of the parameters, whatever the parameter values; when every
    parameter element is finite, every accumulator element is a zero. *)
Theorem init_carry_accumulators
    (init_log_psi : LogPsi) params (init_walker_cfg : Cfg) (seed : Seed) :
  let carry := init_carry init_log_psi params init_walker_cfg seed in
  same_shape (carry_sum_O carry) params /\
  same_shape (carry_sum_O_times_local_energy carry) params /\
  (tree_all (fun x => F32.isfinite x = true) params ->
   tree_all (fun x => F32.iszero x = true) (carry_sum_O carry) /\
   tree_all (fun x => F32.iszero x = true)
     (carry_sum_O_times_local_energy carry)).
Proof.
  intros carry.
  destruct (init_carry_shape init_log_psi params init_walker_cfg seed)
    as [HO HOE].
  split; [exact HO|]. split; [exact HOE|].
  intros Hfin. subst carry. cbn [init_carry carry_sum_O
                                 carry_sum_O_times_local_energy].
  assert (H : tree_all (fun x => F32.iszero x = true)
                (tree_map (fun x => Arr.mul_scalar x (F32.of_int 0)) params)).
  { unfold tree_all in *. rewrite tree_leaves_map.
    apply Forall_forall. intros leaf Hleaf. apply in_map_iff in Hleaf.
    destruct Hleaf as (a & <- & Ha).
    rewrite Forall_forall in Hfin. specialize (Hfin a Ha).
    unfold Arr.mul_scalar. apply Forall_forall. intros y Hy.
    apply in_map_iff in Hy. destruct Hy as (x & <- & Hx).
    rewrite Forall_forall in Hfin. apply mul_zero_of_finite, Hfin, Hx. }
  split; exact H.
Qed.

End InitClaims.

Lemma init_carry_accumulators_witness :
  tree_all (fun x => F32.isfinite x = true) Stub.params0 /\
  tree_all (fun x => F32.iszero x = true)
    (carry_sum_O (init_carry F32.zero Stub.params0 (Stub.PRNGKey 7)
                    (Stub.PRNGKey 0))).
Proof.
  assert (H : tree_all (fun x => F32.isfinite x = true) Stub.params0)
    by (vm_compute; repeat constructor).
  split; [exact H|].
  apply (init_carry_accumulators F32.zero Stub.params0 (Stub.PRNGKey 7)
           (Stub.PRNGKey 0)).
  exact H.
Defined.

(** C6 as stated fails: with a NaN among the parameters, the accumulators
    start with a NaN in its place, not a zero. *)
Lemma init_carry_not_zero :
  let carry :=
    init_carry F32.zero Stub.with_nan (Stub.PRNGKey 7) (Stub.PRNGKey 0) in
  _w_alpha (carry_sum_O carry) = [S754_nan] /\
  _w_alpha (carry_sum_O_times_local_energy carry) = [S754_nan] /\
  ~ tree_all (fun x => F32.iszero x = true) (carry_sum_O carry).
Proof.
  split; [reflexivity|]. split; [reflexivity|].
  unfold tree_all. intros H. rewrite Forall_forall in H.
  assert (Hin : In [S754_nan]
                  (tree_leaves
                     (carry_sum_O
                        (init_carry F32.zero Stub.with_nan (Stub.PRNGKey 7)
                           (Stub.PRNGKey 0)))))
    by (vm_compute; tauto).
  specialize (H _ Hin). inversion H as [|x l Hx _]. discriminate Hx.
Qed.

(* ================================================================= *)
(** ** The training loop *)

Section TrainFacts.
Context {Seed Cfg LogPsi OptState : Type}.
Variable split : Seed -> Seed * Seed.
Variable PRNGKey : Z -> Seed.
Variable concatenate : list Cfg -> Cfg.
Variable self : @NNQS Seed Cfg LogPsi.
Variable optimizer : @Optimizer OptState.

Lemma scan_kernel_events n : forall c,
  Forall kernel_event
    (trace (scan (calc_local_energy_kernel split self) c n)).
Proof.
  induction n as [|n IH]; intros c; [constructor|].
  rewrite scan_trace_S. apply Forall_app. split.
  - destruct c as [[[[[lp p] cfg] sO] sOE] s]. rewrite kernel_trace.
    repeat constructor.
  - destruct (outcome _) as [[c1 e]|err]; [apply IH|constructor].
Qed.

Lemma kernel_events_silent (tr : list (@Event Seed Cfg LogPsi)) :
  Forall kernel_event tr -> batch_seeds tr = [] /\ grads_updated tr = [].
Proof.
  induction 1 as [|ev tr Hev _ [IH1 IH2]]; [split; reflexivity|].
  destruct ev; cbn in Hev; try contradiction; split; assumption.
Qed.

Lemma batch_seeds_app (tr1 tr2 : list (@Event Seed Cfg LogPsi)) :
  batch_seeds (tr1 ++ tr2) = batch_seeds tr1 ++ batch_seeds tr2.
Proof. apply flat_map_app. Qed.

Lemma grads_updated_app (tr1 tr2 : list (@Event Seed Cfg LogPsi)) :
  grads_updated (tr1 ++ tr2) = grads_updated tr1 ++ grads_updated tr2.
Proof. apply flat_map_app. Qed.

(** A batch is entered once, with the seed it was given or else the
    default, and hands nothing to the optimizer. *)
Lemma calc_local_energies_events
    (init_walker_cfg : Cfg) (init_log_psi : LogPsi) params seed :
  let run :=
    calc_local_energies split PRNGKey self init_walker_cfg init_log_psi
      params seed in
  batch_seeds (trace run) =
    [match seed with Some s => s | None => PRNGKey 0 end] /\
  grads_updated (trace run) = [].
Proof.
  intros run. subst run. rewrite calc_local_energies_trace. cbv zeta.
  destruct (kernel_events_silent _
              (scan_kernel_events (batch_size self)
                 (init_carry init_log_psi params init_walker_cfg
                    match seed with Some s => s | None => PRNGKey 0 end)))
    as [H1 H2].
  split.
  - change (batch_seeds (EvCalcLocalEnergies ?a ?b ?c ?s :: ?tr))
      with (s :: batch_seeds tr).
    rewrite H1. reflexivity.
  - change (grads_updated (EvCalcLocalEnergies ?a ?b ?c ?s :: ?tr))
      with (grads_updated tr).
    exact H2.
Qed.

(** The calls of one iteration, in order.  The key handed to
    [init_walker_config] is the one that is split next; the batch is
    entered without a seed; the optimizer is reached only with a gradient
    that [grad_L] returned. *)
Lemma train_body_trace i params (opt_state : OptState) Es key :
  let key1 := snd (split key) in
  let walker_cfg :=
    concatenate (init_walker_config (ferminet self) (F32.of_int 1) key1) in
  let log_psi := apply (ferminet self) params walker_cfg in
  let batch :=
    calc_local_energies split PRNGKey self walker_cfg log_psi params None in
  exists tail,
    trace (train_body split PRNGKey concatenate self optimizer i
             (params, opt_state, Es, key)) =
    [EvSplit key; EvInitWalkerConfig (F32.of_int 1) key1; EvSplit key1;
     EvApply params walker_cfg] ++ trace batch ++ tail /\
    (tail = [] \/
     exists les E O_ OtE g,
       outcome batch = Ok (les, E, O_, OtE) /\
       grad_L E OtE O_ = Ok g /\
       tail = [EvOptimizerUpdate g params]).
Proof.
  intros key1 walker_cfg log_psi batch.
  unfold train_body, call. subst key1.
  destruct (split key) as [subkey key1]. cbn [snd] in *.
  cbn [bind emit ret app].
  destruct (split key1) as [subkey' key2].
  cbn [bind emit ret app]. fold walker_cfg. fold log_psi. fold batch.
  clearbody batch. destruct batch as [trb [[[[les E] O_] OtE]|err]].
  - cbn [bind lift]. destruct (grad_L E OtE O_) as [g|] eqn:Hg.
    + destruct (update optimizer g opt_state params) as [updates opt_state'].
      exists [EvOptimizerUpdate g params]. split.
      * destruct (apply_updates params updates); cbn;
          rewrite ?app_nil_r; reflexivity.
      * right. exists les, E, O_, OtE, g. auto.
    + exists []. split; [cbn; rewrite ?app_nil_r; reflexivity|left; reflexivity].
  - exists []. split; [cbn; rewrite ?app_nil_r; reflexivity|left; reflexivity].
Qed.

Lemma train_body_batch_seeds i st :
  batch_seeds (trace (train_body split PRNGKey concatenate self optimizer i st))
  = [PRNGKey 0].
Proof.
  destruct st as [[[params opt_state] Es] key].
  destruct (train_body_trace i params opt_state Es key) as (tail & -> & Htail).
  rewrite !batch_seeds_app.
  rewrite (proj1 (calc_local_energies_events _ _ params None)).
  destruct Htail as [->|(les & E & O_ & OtE & g & _ & _ & ->)]; reflexivity.
Qed.

Lemma train_body_grads i st :
  Forall (tree_all (fun x => F32.isfinite x = true))
    (grads_updated
       (trace (train_body split PRNGKey concatenate self optimizer i st))).
Proof.
  destruct st as [[[params opt_state] Es] key].
  destruct (train_body_trace i params opt_state Es key) as (tail & -> & Htail).
  rewrite !grads_updated_app.
  rewrite (proj2 (calc_local_energies_events _ _ params None)).
  destruct Htail as [->|(les & E & O_ & OtE & g & _ & Hg & ->)]; cbn.
  - constructor.
  - constructor; [|constructor]. eapply grad_L_finite, Hg.
Qed.

Lemma train_loop_trace n_iters params (opt_state : OptState) :
  trace (train_loop split PRNGKey concatenate self n_iters params optimizer
           opt_state) =
  trace (for_range 0 (Z.to_nat n_iters)
           (train_body split PRNGKey concatenate self optimizer)
           (params, opt_state, [], PRNGKey 0)).
Proof.
  unfold train_loop. rewrite trace_bind.
  destruct (outcome _) as [[[[p o] Es] k]|e]; cbn; apply app_nil_r.
Qed.

(** An iteration that completes has appended the [E] of its batch to the
    history. *)
Lemma train_body_ok_inv i params (opt_state : OptState) Es key st' :
  outcome (train_body split PRNGKey concatenate self optimizer i
             (params, opt_state, Es, key)) = Ok st' ->
  exists walker_cfg log_psi les E O_ OtE,
    outcome (calc_local_energies split PRNGKey self walker_cfg log_psi
               params None) = Ok (les, E, O_, OtE) /\
    snd (fst st') = Es ++ [E].
Proof.
  unfold train_body, call.
  destruct (split key) as [subkey key1]. cbn [bind emit ret app].
  destruct (split key1) as [subkey' key2]. cbn [bind emit ret app].
  set (walker_cfg := concatenate _). set (log_psi := apply _ _ _).
  destruct (calc_local_energies _ _ _ _ _ _ _)
    as [trb [[[[les E] O_] OtE]|err]] eqn:Hb; [|discriminate].
  cbn [bind lift]. destruct (grad_L E OtE O_) as [g|]; [|discriminate].
  destruct (update optimizer g opt_state params) as [updates opt_state'].
  destruct (apply_updates params updates) as [params'|]; [|discriminate].
  cbn [bind lift ret outcome snd]. intros H. injection H as <-.
  exists walker_cfg, log_psi, les, E, O_, OtE. rewrite Hb. split; reflexivity.
Qed.

Lemma for_range_history n : forall start st st',
  outcome (for_range start n
             (train_body split PRNGKey concatenate self optimizer) st)
    = Ok st' ->
  length (snd (fst st')) = length (snd (fst st)) + n.
Proof.
  induction n as [|n IH]; intros start st st'.
  - cbn. intros H. injection H as <-. lia.
  - cbn [for_range]. rewrite outcome_bind.
    destruct (outcome (train_body _ _ _ _ _ _ st)) as [st1|] eqn:Hb;
      [|discriminate].
    intros H. apply IH in H. rewrite H.
    destruct st as [[[params opt_state] Es] key].
    destruct (train_body_ok_inv _ _ _ _ _ _ Hb)
      as (_ & _ & _ & E & _ & _ & _ & ->).
    cbn. rewrite length_app. cbn. lia.
Qed.

(** The loop of [train], when it completes, returns a history with one
    entry per iteration. *)
Lemma train_loop_history n_iters params (opt_state : OptState) params' Es :
  outcome (train_loop split PRNGKey concatenate self n_iters params
             optimizer opt_state) = Ok (params', Es) ->
  length Es = Z.to_nat n_iters.
Proof.
  unfold train_loop. rewrite outcome_bind.
  destruct (outcome (for_range _ _ _ _)) as [[[[p o] Es'] k]|e] eqn:Hf;
    [|discriminate].
  cbn. intros H. injection H as _ <-.
  apply for_range_history in Hf. exact Hf.
Qed.

End TrainFacts.

Section TrainClaims.
Context {Seed Cfg LogPsi OptState : Type}.
Variable split : Seed -> Seed * Seed.
Variable PRNGKey : Z -> Seed.
Variable concatenate : list Cfg -> Cfg.
Variable self : @NNQS Seed Cfg LogPsi.
Variable optimizer : @Optimizer OptState.

(** In every run of the loop of [train], each entry into the batch
    evaluator is made with the default seed [PRNGKey 0]. *)
Lemma train_loop_batch_seeds n_iters params (opt_state : OptState) :
  Forall (fun seed => seed = PRNGKey 0)
    (batch_seeds
       (trace (train_loop split PRNGKey concatenate self n_iters params
                 optimizer opt_state))).
Proof.
  rewrite train_loop_trace. unfold batch_seeds.
  apply (proj2 (Forall_flat_map _ _ _)).
  apply Forall_trace_for_range. intros i st.
  apply (proj1 (Forall_flat_map _ _ _)).
  change (Forall (fun seed => seed = PRNGKey 0)
            (batch_seeds
               (trace (train_body split PRNGKey concatenate self optimizer
                         i st)))).
  rewrite train_body_batch_seeds. repeat constructor.
Qed.

(** C10.  The gradient that [grad_L] returns has only finite elements;
    [grad_L] does return on batch outputs of one shape; and in every run
    of the loop of [train], every gradient handed to [optimizer.update]
    has only finite elements. *)
Theorem optimizer_gradient_finite :
  (forall E O_times_local_energy O_ g,
     grad_L E O_times_local_energy O_ = Ok g ->
     tree_all (fun x => F32.isfinite x = true) g) /\
  (forall E O_times_local_energy O_,
     same_shape O_times_local_energy O_ ->
     exists g, grad_L E O_times_local_energy O_ = Ok g) /\
  (forall n_iters params (opt_state : OptState),
     Forall (tree_all (fun x => F32.isfinite x = true))
       (grads_updated
          (trace (train_loop split PRNGKey concatenate self n_iters params
                    optimizer opt_state)))).
Proof.
  split; [|split].
  - intros E OtE O_ g. apply grad_L_finite.
  - intros E OtE O_ H. eexists. apply grad_L_closed_form, H.
  - intros n_iters params opt_state. rewrite train_loop_trace.
    unfold grads_updated. apply (proj2 (Forall_flat_map _ _ _)).
    apply Forall_trace_for_range. intros i st.
    apply (proj1 (Forall_flat_map _ _ _)).
    apply (train_body_grads split PRNGKey concatenate self optimizer i st).
Qed.

(** C7: what the code does.  [train] stops at line 151, where the name
    [plt] is bound nowhere: it raises [NameError] before the first
    iteration, whatever its arguments.  Before that line it has only
    called [optimizer.init] and wrapped [calc_local_energies] in
    [jax.jit]; the empty trace says that neither the sampler, the
    Hamiltonian, the network, [split] nor [optimizer.update] was called. *)
Theorem train_raises_NameError n_iters params expected_E :
  train split PRNGKey concatenate self n_iters params optimizer expected_E
  = ([], Raise (NameError "plt")).
Proof. reflexivity. Qed.

End TrainClaims.

Lemma optimizer_gradient_finite_witness :
  grad_L Stub.one Stub.with_inf Stub.zeros
    = Ok (mkNetParams [[Stub.one; Stub.half]] [[Stub.one]] [] []
            [F32.finfo_max] [Stub.one] [Stub.one] [Stub.one] [Stub.one]) /\
  tree_all (fun x => F32.isfinite x = true)
    (mkNetParams [[Stub.one; Stub.half]] [[Stub.one]] [] []
       [F32.finfo_max] [Stub.one] [Stub.one] [Stub.one] [Stub.one]).
Proof.
  assert (H : grad_L Stub.one Stub.with_inf Stub.zeros
              = Ok (mkNetParams [[Stub.one; Stub.half]] [[Stub.one]] [] []
                      [F32.finfo_max] [Stub.one] [Stub.one] [Stub.one]
                      [Stub.one]))
    by (vm_compute; reflexivity).
  split; [exact H|].
  exact (proj1 (optimizer_gradient_finite Stub.split Stub.PRNGKey
                  Stub.concatenate (Stub.nnqs 2) Stub.sgd) _ _ _ _ H).
Defined.

(** C4: what the code does.  Whatever the collaborators and the number of
    iterations, every batch of a training run is evaluated with the same
    seed, [PRNGKey 0]; on the concrete instance, two iterations enter the
    batch evaluator with equal seeds, and the key that an iteration hands
    to [init_walker_config] is then split again. *)
Theorem train_loop_batch_seed_reused :
  (forall (Seed Cfg LogPsi OptState : Type) (split : Seed -> Seed * Seed)
          (PRNGKey : Z -> Seed) (concatenate : list Cfg -> Cfg)
          (self : @NNQS Seed Cfg LogPsi) (optimizer : @Optimizer OptState)
          n_iters params opt_state,
     Forall (fun seed => seed = PRNGKey 0%Z)
       (batch_seeds
          (trace (train_loop split PRNGKey concatenate self n_iters params
                    optimizer opt_state)))) /\
  (let run :=
     train_loop Stub.split Stub.PRNGKey Stub.concatenate (Stub.nnqs 2) 2%Z
       Stub.params0 Stub.sgd O in
   (exists params' Es, outcome run = Ok (params', Es) /\ length Es = 2) /\
   batch_seeds (trace run) = [Stub.PRNGKey 0; Stub.PRNGKey 0] /\
   ~ NoDup (batch_seeds (trace run)) /\
   firstn 3 (trace run) =
     [EvSplit (0%Z, []);
      EvInitWalkerConfig (F32.of_int 1) (0%Z, [true]);
      EvSplit (0%Z, [true])]).
Proof.
  split.
  - intros. apply train_loop_batch_seeds.
  - cbv zeta. split; [|split; [|split]].
    + eexists _, _. split; vm_compute; reflexivity.
    + vm_compute. reflexivity.
    + intros H.
      assert (E : batch_seeds
                    (trace (train_loop Stub.split Stub.PRNGKey
                              Stub.concatenate (Stub.nnqs 2) 2%Z
                              Stub.params0 Stub.sgd O))
                  = [Stub.PRNGKey 0; Stub.PRNGKey 0])
        by (vm_compute; reflexivity).
      rewrite E in H. inversion H as [|x l Hnotin _]. apply Hnotin.
      left. reflexivity.
    + vm_compute. reflexivity.
Qed.

(* ================================================================= *)
(** ** params.py: indexing and comprehensions *)

Lemma py_getitem_nat {A} (l : list A) (i : nat) :
  py_getitem l (Z.of_nat i) = nth_error l i.
Proof.
  unfold py_getitem.
  destruct (Z.leb_spec 0 (Z.of_nat i)) as [_|H]; [|lia].
  rewrite Nat2Z.id. reflexivity.
Qed.

Lemma py_getitem_pred {A} (l : list A) (j : nat) :
  py_getitem l (Z.of_nat (S j) - 1) = nth_error l j.
Proof.
  replace (Z.of_nat (S j) - 1)%Z with (Z.of_nat j) by lia.
  apply py_getitem_nat.
Qed.

Lemma nth_error_last {A} (l : list A) (d : A) :
  l <> [] -> nth_error l (length l - 1) = Some (last l d).
Proof.
  induction l as [|x l IH]; [congruence|]. intros _.
  destruct l as [|y l]; [reflexivity|].
  cbn [length last] in *. rewrite <- IH by discriminate.
  replace (S (S (length l)) - 1) with (S (S (length l) - 1)) by lia.
  reflexivity.
Qed.

(** [l[-1]] is the last element, and raises on an empty sequence. *)
Lemma py_getitem_last {A} (l : list A) (d : A) :
  py_getitem l (-1) = match l with [] => None | _ => Some (last l d) end.
Proof.
  unfold py_getitem. cbn [Z.leb Z.compare].
  destruct l as [|x l]; [reflexivity|].
  destruct (Z.leb_spec (- Z.of_nat (length (x :: l))) (-1)) as [_|H];
    [|cbn [length] in H; lia].
  replace (Z.to_nat (Z.of_nat (length (x :: l)) + -1))
    with (length (x :: l) - 1) by lia.
  apply nth_error_last. discriminate.
Qed.

Lemma comprehension_Some {A} (f : nat -> option A) (g : nat -> A) range :
  (forall i, In i range -> f i = Some (g i)) ->
  comprehension f range = Some (map g range).
Proof.
  induction range as [|i range IH]; intros H; [reflexivity|].
  cbn [comprehension map]. rewrite (H i) by (left; reflexivity).
  cbn [obind]. rewrite IH by (intros j Hj; apply H; right; exact Hj).
  reflexivity.
Qed.

Lemma comprehension_None {A} (f : nat -> option A) range i :
  In i range -> f i = None -> comprehension f range = None.
Proof.
  induction range as [|j range IH]; intros Hin Hf; [destruct Hin|].
  cbn [comprehension]. destruct Hin as [->|Hin].
  - rewrite Hf. reflexivity.
  - destruct (f j); [|reflexivity]. cbn [obind].
    rewrite (IH Hin Hf). reflexivity.
Qed.

Lemma map_nth_seq {A B} (h : A -> B) (l : list A) (d : A) :
  map (fun i => h (nth i l d)) (seq 0 (length l)) = map h l.
Proof.
  induction l as [|x l IH]; [reflexivity|].
  cbn [length seq map nth]. f_equal.
  rewrite <- seq_shift, map_map. exact IH.
Qed.

Lemma map_with_prev_seq {A B} (f : A -> A -> B) (l : list A) : forall prev d,
  map (fun i => f (nth i (prev :: l) d) (nth i l d)) (seq 0 (length l))
  = map_with_prev f prev l.
Proof.
  induction l as [|x l IH]; intros prev d; [reflexivity|].
  cbn [length seq map map_with_prev]. f_equal.
  rewrite <- seq_shift, map_map. apply (IH x d).
Qed.

Lemma nth_error_combine {A B} (l1 : list A) : forall (l2 : list B) i d,
  i < length l1 -> i < length l2 ->
  nth_error l1 i = Some (fst (nth i (combine l1 l2) d)) /\
  nth_error l2 i = Some (snd (nth i (combine l1 l2) d)).
Proof.
  induction l1 as [|x l1 IH]; intros [|y l2] i d H1 H2; cbn in *; try lia.
  destruct i as [|i]; cbn; [split; reflexivity|]. apply IH; lia.
Qed.

Lemma combine_length_le {A B} (l1 : list A) (l2 : list B) :
  length l1 <= length l2 -> length (combine l1 l2) = length l1.
Proof. intros H. rewrite length_combine. lia. Qed.

Section ParamsFacts.
Context {Seed : Type}.
Variable init_func : Seed -> list nat -> Array.
Variable init_func_for_vectors : Seed -> list nat -> Array.
Variable PRNGKey : Z -> Seed.

(** [NetParams.init] on at least one layer, with a two-electron width for
    every one-electron width, as a map over the layers: the first layer is
    built by the rule of the others, fed by the widths [4 * n_atoms] and
    [4]; every tensor is drawn with the same key. *)
Lemma NetParams_init_closed_form n_1 n_2 n_k n_electrons n_atoms seed :
  n_1 <> [] ->
  length n_1 <= length n_2 ->
  let key := match seed with Some s => s | None => PRNGKey 0 end in
  let scaled := fun x => Arr.mul_scalar x over_factor in
  let layers := combine n_1 n_2 in
  let N := list_sum n_electrons in
  NetParams_init init_func init_func_for_vectors PRNGKey n_1 n_2 n_k
    n_electrons n_atoms seed =
  Some (mkNetParams
          (map_with_prev
             (fun prev cur =>
                scaled (init_func key
                          [fst cur; 3 * fst prev + 2 * snd prev]))
             (4 * n_atoms, 4) layers)
          (map (fun cur => scaled (init_func_for_vectors key [fst cur]))
             layers)
          (map_with_prev
             (fun prev cur => scaled (init_func key [snd cur; snd prev]))
             (4 * n_atoms, 4) layers)
          (map (fun cur => scaled (init_func_for_vectors key [snd cur]))
             layers)
          (scaled (init_func_for_vectors key [n_k; N; last n_1 0]))
          (scaled (init_func_for_vectors key [n_k; N]))
          (scaled (init_func_for_vectors key [n_k; N; n_atoms; 3; 3]))
          (scaled (init_func_for_vectors key [n_k; N; n_atoms]))
          (scaled (init_func_for_vectors key [n_k]))).
Proof.
  intros Hne Hlen key scaled layers N.
  assert (HL : length layers = length n_1)
    by (apply combine_length_le, Hlen).
  assert (Hnth : forall i, In i (seq 0 (length n_1)) ->
            nth_error n_1 i = Some (fst (nth i layers (4 * n_atoms, 4))) /\
            nth_error n_2 i = Some (snd (nth i layers (4 * n_atoms, 4)))).
  { intros i Hi. apply in_seq in Hi. apply nth_error_combine; lia. }
  unfold NetParams_init. fold key.
  rewrite (comprehension_Some _
             (fun i =>
                scaled (init_func key
                  [fst (nth i layers (4 * n_atoms, 4));
                   3 * fst (nth i ((4 * n_atoms, 4) :: layers)
                              (4 * n_atoms, 4))
                   + 2 * snd (nth i ((4 * n_atoms, 4) :: layers)
                                (4 * n_atoms, 4))]))).
  2:{ intros i Hi. destruct (Hnth i Hi) as [H1 _].
      destruct i as [|j]; cbn [Nat.eqb negb].
      - rewrite py_getitem_nat, H1. cbn [obind nth fst snd].
        rewrite <- Nat.mul_assoc. reflexivity.
      - assert (Hj : In j (seq 0 (length n_1)))
          by (apply in_seq; apply in_seq in Hi; lia).
        destruct (Hnth j Hj) as [H1j H2j].
        rewrite py_getitem_nat, !py_getitem_pred, H1, H1j, H2j.
        reflexivity. }
  cbn [obind].
  rewrite (comprehension_Some _
             (fun i =>
                scaled (init_func_for_vectors key
                          [fst (nth i layers (4 * n_atoms, 4))]))).
  2:{ intros i Hi. destruct (Hnth i Hi) as [H1 _].
      rewrite py_getitem_nat, H1. reflexivity. }
  cbn [obind].
  rewrite (comprehension_Some _
             (fun i =>
                scaled (init_func key
                  [snd (nth i layers (4 * n_atoms, 4));
                   snd (nth i ((4 * n_atoms, 4) :: layers)
                          (4 * n_atoms, 4))]))).
  2:{ intros i Hi. destruct (Hnth i Hi) as [_ H2].
      destruct i as [|j]; cbn [Nat.eqb negb].
      - rewrite py_getitem_nat, H2. reflexivity.
      - assert (Hj : In j (seq 0 (length n_1)))
          by (apply in_seq; apply in_seq in Hi; lia).
        destruct (Hnth j Hj) as [_ H2j].
        rewrite py_getitem_nat, py_getitem_pred, H2, H2j. reflexivity. }
  cbn [obind].
  rewrite (comprehension_Some _
             (fun i =>
                scaled (init_func_for_vectors key
                          [snd (nth i layers (4 * n_atoms, 4))]))).
  2:{ intros i Hi. destruct (Hnth i Hi) as [_ H2].
      rewrite py_getitem_nat, H2. reflexivity. }
  cbn [obind].
  rewrite (py_getitem_last n_1 0).
  destruct n_1 as [|a n_1']; [congruence|]. cbn [obind]. fold N.
  rewrite <- HL.
  rewrite (map_with_prev_seq
             (fun prev cur =>
                scaled (init_func key
                          [fst cur; 3 * fst prev + 2 * snd prev]))).
  rewrite (map_with_prev_seq
             (fun prev cur => scaled (init_func key [snd cur; snd prev]))).
  rewrite (map_nth_seq
             (fun cur => scaled (init_func_for_vectors key [fst cur]))).
  rewrite (map_nth_seq
             (fun cur => scaled (init_func_for_vectors key [snd cur]))).
  reflexivity.
Qed.

(** [NetParams.init] raises when there is no layer, and when a
    two-electron width is missing. *)
Lemma NetParams_init_raises n_1 n_2 n_k n_electrons n_atoms seed :
  n_1 = [] \/ length n_2 < length n_1 ->
  NetParams_init init_func init_func_for_vectors PRNGKey n_1 n_2 n_k
    n_electrons n_atoms seed = None.
Proof.
  intros [->|Hlt].
  - reflexivity.
  - unfold NetParams_init.
    destruct (comprehension _ (seq 0 (length n_1))) as [V|]; [|reflexivity].
    cbn [obind].
    destruct (comprehension _ (seq 0 (length n_1))) as [b|]; [|reflexivity].
    cbn [obind].
    rewrite (comprehension_None _ (seq 0 (length n_1)) (length n_2));
      [reflexivity|apply in_seq; lia|].
    assert (H : py_getitem n_2 (Z.of_nat (length n_2)) = None).
    { rewrite py_getitem_nat. apply nth_error_None. lia. }
    destruct (negb (length n_2 =? 0)); rewrite H; reflexivity.
Qed.

Lemma NetParams_init_Some_inv n_1 n_2 n_k n_electrons n_atoms seed p :
  NetParams_init init_func init_func_for_vectors PRNGKey n_1 n_2 n_k
    n_electrons n_atoms seed = Some p ->
  n_1 <> [] /\ length n_1 <= length n_2.
Proof.
  intros H. split.
  - intros ->. discriminate H.
  - destruct (Nat.le_gt_cases (length n_1) (length n_2)) as [Hle|Hgt];
      [exact Hle|].
    rewrite NetParams_init_raises in H by (right; exact Hgt). discriminate H.
Qed.

End ParamsFacts.

Lemma nth_error_combine_Some {A B} (l1 : list A) : forall (l2 : list B) i a b,
  nth_error l1 i = Some a -> nth_error l2 i = Some b ->
  nth_error (combine l1 l2) i = Some (a, b).
Proof.
  induction l1 as [|x l1 IH]; intros [|y l2] [|i] a b H1 H2; cbn in *;
    try discriminate; [congruence|]. apply IH; assumption.
Qed.

Lemma combine_firstn_widths {A B} (l1 : list A) : forall (l2 : list B),
  combine l1 (firstn (length l1) l2) = combine l1 l2.
Proof.
  induction l1 as [|x l1 IH]; intros [|y l2]; cbn; try reflexivity.
  f_equal. apply IH.
Qed.

Lemma list_sum_cons x l : list_sum (x :: l) = x + list_sum l.
Proof. reflexivity. Qed.

Lemma mul_scalar_length x s : length (Arr.mul_scalar x s) = length x.
Proof. apply length_map. Qed.

Section ParamsClaims.
Context {Seed : Type}.
Variable init_func : Seed -> list nat -> Array.
Variable init_func_for_vectors : Seed -> list nat -> Array.
Variable PRNGKey : Z -> Seed.

(** X1.  [NetParams.init] raises [IndexError] exactly when [n_1] is empty
    or [n_2] is shorter than [n_1]. *)
Theorem NetParams_init_raises_iff n_1 n_2 n_k n_electrons n_atoms seed :
  NetParams_init init_func init_func_for_vectors PRNGKey n_1 n_2 n_k
    n_electrons n_atoms seed = None
  <-> (n_1 = [] \/ length n_2 < length n_1).
Proof.
  split; [|apply NetParams_init_raises].
  intros H. destruct n_1 as [|a n_1']; [left; reflexivity|]. right.
  destruct (Nat.le_gt_cases (length (a :: n_1')) (length n_2)) as [Hle|Hgt];
    [|exact Hgt].
  rewrite NetParams_init_closed_form in H by (discriminate || exact Hle).
  discriminate H.
Qed.

(** X2.  On at least one layer and with enough two-electron widths,
    [NetParams.init] builds the layers by one rule: the weights [V] and
    [W] of a layer are shaped by the widths of the layer before, and the
    [i = 0] branch is that rule fed by the widths [4 * n_atoms] and [4];
    every tensor is drawn from the one key the function was given. *)
Theorem NetParams_init_layers n_1 n_2 n_k n_electrons n_atoms seed :
  n_1 <> [] ->
  length n_1 <= length n_2 ->
  let key := match seed with Some s => s | None => PRNGKey 0 end in
  let scaled := fun x => Arr.mul_scalar x over_factor in
  let layers := combine n_1 n_2 in
  let N := list_sum n_electrons in
  NetParams_init init_func init_func_for_vectors PRNGKey n_1 n_2 n_k
    n_electrons n_atoms seed =
  Some (mkNetParams
          (map_with_prev
             (fun prev cur =>
                scaled (init_func key
                          [fst cur; 3 * fst prev + 2 * snd prev]))
             (4 * n_atoms, 4) layers)
          (map (fun cur => scaled (init_func_for_vectors key [fst cur]))
             layers)
          (map_with_prev
             (fun prev cur => scaled (init_func key [snd cur; snd prev]))
             (4 * n_atoms, 4) layers)
          (map (fun cur => scaled (init_func_for_vectors key [snd cur]))
             layers)
          (scaled (init_func_for_vectors key [n_k; N; last n_1 0]))
          (scaled (init_func_for_vectors key [n_k; N]))
          (scaled (init_func_for_vectors key [n_k; N; n_atoms; 3; 3]))
          (scaled (init_func_for_vectors key [n_k; N; n_atoms]))
          (scaled (init_func_for_vectors key [n_k]))).
Proof.
  intros Hne Hlen. apply NetParams_init_closed_form; assumption.
Qed.

(** X3.  [NetParams.init] never reads a two-electron width beyond the
    number of layers: cutting [n_2] to the length of [n_1] changes
    nothing, whether the call returns or raises. *)
Theorem NetParams_init_ignores_extra_widths
    n_1 n_2 n_k n_electrons n_atoms seed :
  NetParams_init init_func init_func_for_vectors PRNGKey n_1 n_2 n_k
    n_electrons n_atoms seed =
  NetParams_init init_func init_func_for_vectors PRNGKey n_1
    (firstn (length n_1) n_2) n_k n_electrons n_atoms seed.
Proof.
  destruct n_1 as [|a n_1']; [reflexivity|].
  destruct (Nat.le_gt_cases (length (a :: n_1')) (length n_2)) as [Hle|Hgt].
  - rewrite !NetParams_init_closed_form;
      try discriminate; try exact Hle.
    + cbv zeta. rewrite combine_firstn_widths. reflexivity.
    + rewrite length_firstn. lia.
  - rewrite firstn_all2 by lia. reflexivity.
Qed.

(** X4.  Because one key draws every tensor, the biases of the two
    streams coincide in every layer where the streams have the same
    width. *)
Theorem NetParams_init_biases_coincide
    n_1 n_2 n_k n_electrons n_atoms seed p i w :
  NetParams_init init_func init_func_for_vectors PRNGKey n_1 n_2 n_k
    n_electrons n_atoms seed = Some p ->
  nth_error n_1 i = Some w ->
  nth_error n_2 i = Some w ->
  exists leaf,
    nth_error (_b p) i = Some leaf /\ nth_error (_c p) i = Some leaf.
Proof.
  intros H H1 H2.
  destruct (NetParams_init_Some_inv _ _ _ _ _ _ _ _ _ _ H) as [Hne Hlen].
  rewrite NetParams_init_closed_form in H by assumption.
  injection H as <-. cbn [_b _c].
  rewrite !nth_error_map, (nth_error_combine_Some _ _ _ _ _ H1 H2).
  eexists. split; reflexivity.
Qed.

Hypothesis init_func_size : forall key shape,
  length (init_func key shape) = shape_size shape.
Hypothesis init_func_for_vectors_size : forall key shape,
  length (init_func_for_vectors key shape) = shape_size shape.

Lemma layers_sizes_sum key (layers : list (nat * nat)) : forall prev,
  list_sum
    (map (@length F32.t)
       (map_with_prev
          (fun prev cur =>
             Arr.mul_scalar
               (init_func key [fst cur; 3 * fst prev + 2 * snd prev])
               over_factor) prev layers))
  + list_sum
      (map (@length F32.t)
         (map (fun cur =>
                 Arr.mul_scalar (init_func_for_vectors key [fst cur])
                   over_factor) layers))
  + list_sum
      (map (@length F32.t)
         (map_with_prev
            (fun prev cur =>
               Arr.mul_scalar (init_func key [snd cur; snd prev])
                 over_factor) prev layers))
  + list_sum
      (map (@length F32.t)
         (map (fun cur =>
                 Arr.mul_scalar (init_func_for_vectors key [snd cur])
                   over_factor) layers))
  = layers_n_parameters prev layers.
Proof.
  induction layers as [|[a b] layers IH]; intros prev; [reflexivity|].
  cbn [map_with_prev map layers_n_parameters fst snd].
  rewrite <- (IH (a, b)), !list_sum_cons, !mul_scalar_length.
  rewrite !init_func_size, !init_func_for_vectors_size.
  cbn [shape_size fold_right]. rewrite !Nat.mul_1_r. lia.
Qed.

(** X5.  With initializers that return arrays of the requested shape, the
    parameter count of a freshly initialized network is the count of its
    layers, each fed by the widths of the layer before and the first by
    [4 * n_atoms] and [4], plus the sizes of the five determinant and
    envelope tensors. *)
Theorem total_n_parameters_init n_1 n_2 n_k n_electrons n_atoms seed p :
  NetParams_init init_func init_func_for_vectors PRNGKey n_1 n_2 n_k
    n_electrons n_atoms seed = Some p ->
  let N := list_sum n_electrons in
  total_n_parameters p =
  layers_n_parameters (4 * n_atoms, 4) (combine n_1 n_2)
  + n_k * N * last n_1 0 + n_k * N + n_k * N * n_atoms * 9
  + n_k * N * n_atoms + n_k.
Proof.
  intros H N.
  destruct (NetParams_init_Some_inv _ _ _ _ _ _ _ _ _ _ H) as [Hne Hlen].
  rewrite NetParams_init_closed_form in H by assumption.
  match type of H with
  | Some ?t = Some _ =>
      assert (Hp : p = t)
        by (symmetry; injection H; intros H'; exact H')
  end.
  rewrite Hp. fold N. unfold total_n_parameters.
  cbn [_V _b _W _c _w_alpha _g_alpha _Sigma_alpha _pi_alpha _omega].
  rewrite <- (layers_sizes_sum (match seed with
                                | Some s => s
                                | None => PRNGKey 0
                                end) (combine n_1 n_2) (4 * n_atoms, 4)).
  rewrite !mul_scalar_length, !init_func_for_vectors_size.
  cbn [shape_size fold_right]. rewrite !Nat.mul_1_r. lia.
Qed.

End ParamsClaims.

Lemma stub_init_size key shape :
  length (StubInit.glorot key shape) = shape_size shape /\
  length (StubInit.normal key shape) = shape_size shape.
Proof. split; apply repeat_length. Qed.

Lemma NetParams_init_raises_iff_witness :
  NetParams_init StubInit.glorot StubInit.normal Stub.PRNGKey [2; 3] [4] 1
    [1; 1] 1 None = None.
Proof.
  apply (NetParams_init_raises_iff StubInit.glorot StubInit.normal
           Stub.PRNGKey [2; 3] [4] 1 [1; 1] 1 None).
  right. cbn. lia.
Defined.

Lemma NetParams_init_layers_witness :
  [2; 3] <> [] /\ length [2; 3] <= length [4; 5] /\
  option_map tree_shape
    (NetParams_init StubInit.glorot StubInit.normal Stub.PRNGKey [2; 3]
       [4; 5] 1 [1; 1] 1 None)
  = Some (mkNetParams [40; 42] [2; 3] [16; 20] [4; 5] 6 2 18 2 1).
Proof.
  split; [discriminate|]. split; [cbn; lia|].
  rewrite (NetParams_init_layers StubInit.glorot StubInit.normal
             Stub.PRNGKey [2; 3] [4; 5] 1 [1; 1] 1 None);
    [vm_compute; reflexivity|discriminate|cbn; lia].
Defined.

Lemma NetParams_init_biases_coincide_witness :
  exists leaf,
    option_map (fun p => nth_error (_b p) 1)
      (NetParams_init StubInit.glorot StubInit.normal Stub.PRNGKey [2; 3]
         [4; 3] 1 [1; 1] 1 None) = Some (Some leaf) /\
    option_map (fun p => nth_error (_c p) 1)
      (NetParams_init StubInit.glorot StubInit.normal Stub.PRNGKey [2; 3]
         [4; 3] 1 [1; 1] 1 None) = Some (Some leaf).
Proof.
  destruct (NetParams_init StubInit.glorot StubInit.normal Stub.PRNGKey
              [2; 3] [4; 3] 1 [1; 1] 1 None) as [p|] eqn:H;
    [|vm_compute in H; discriminate H].
  destruct (NetParams_init_biases_coincide StubInit.glorot StubInit.normal
              Stub.PRNGKey [2; 3] [4; 3] 1 [1; 1] 1 None p 1 3 H
              eq_refl eq_refl) as (leaf & Hb & Hc).
  exists leaf. cbn [option_map]. rewrite Hb, Hc. split; reflexivity.
Defined.

Lemma total_n_parameters_init_witness :
  option_map total_n_parameters
    (NetParams_init StubInit.glorot StubInit.normal Stub.PRNGKey [2; 3]
       [4; 5] 1 [1; 1] 1 None) = Some 161.
Proof.
  destruct (NetParams_init StubInit.glorot StubInit.normal Stub.PRNGKey
              [2; 3] [4; 5] 1 [1; 1] 1 None) as [p|] eqn:H;
    [|vm_compute in H; discriminate H].
  cbn [option_map].
  rewrite (total_n_parameters_init StubInit.glorot StubInit.normal
             Stub.PRNGKey
             (fun key shape => proj1 (stub_init_size key shape))
             (fun key shape => proj2 (stub_init_size key shape))
             [2; 3] [4; 5] 1 [1; 1] 1 None p H).
  reflexivity.
Defined.

(* ================================================================= *)
(** ** The batch as a fold over its samples *)

Lemma tree_map_ext {A B} (f g : A -> B) (p : NetParamsOf A) :
  (forall a, f a = g a) -> tree_map f p = tree_map g p.
Proof.
  intros H. unfold tree_map.
  rewrite !(map_ext f g H), !H. reflexivity.
Qed.

Lemma tree_map_map {A B C} (f : A -> B) (g : B -> C) (p : NetParamsOf A) :
  tree_map g (tree_map f p) = tree_map (fun a => g (f a)) p.
Proof. unfold tree_map. cbn. rewrite !map_map. reflexivity. Qed.

Lemma monad_eta {Ev A} (m : M Ev A) : m = (trace m, outcome m).
Proof. destruct m; reflexivity. Qed.

(** Rewriting the scrutinised outcome of a computation with an equation
    that holds up to unfolding of type abbreviations. *)
Ltac rewrite_outcome H :=
  match type of H with
  | _ = ?r =>
      match goal with
      | |- context [match ?o with Ok _ => _ | Raise _ => _ end] =>
          replace o with r by (symmetry; exact H)
      end
  end.

Section BatchFold.
Context {Seed Cfg LogPsi : Type}.
Variable split : Seed -> Seed * Seed.
Variable PRNGKey : Z -> Seed.
Variable self : @NNQS Seed Cfg LogPsi.

Lemma batch_samples_length params (n : nat) : forall log_psi walker_cfg seed,
  length (batch_samples split self params log_psi walker_cfg seed n) = n.
Proof.
  induction n as [|n IH]; intros lp cfg seed; [reflexivity|].
  cbn [batch_samples length]. rewrite IH. reflexivity.
Qed.

(** With a shape-keeping sampler, a scan from accumulators of the
    parameters' shape returns the energies of the samples and the
    accumulators with every sample added, still of that shape. *)
Lemma scan_fold params (n : nat) : forall log_psi walker_cfg sum_O sum_OE seed,
  sampler_keeps_shape self ->
  same_shape sum_O params ->
  same_shape sum_OE params ->
  let samples := batch_samples split self params log_psi walker_cfg seed n in
  let acc := fold_left add_sample samples (sum_O, sum_OE) in
  same_shape (fst acc) params /\
  same_shape (snd acc) params /\
  exists log_psi' walker_cfg' seed',
    outcome (scan (calc_local_energy_kernel split self)
               (log_psi, params, walker_cfg, sum_O, sum_OE, seed) n)
    = Ok ((log_psi', params, walker_cfg', fst acc, snd acc, seed'),
          map fst samples).
Proof.
  induction n as [|n IH]; intros lp cfg sO sOE seed Hs HO HOE.
  - cbn. split; [exact HO|]. split; [exact HOE|].
    exists lp, cfg, seed. reflexivity.
  - cbn [batch_samples]. set (e := calc_local_energy _ _ _).
    set (next := next_sample _ _ _ _ _).
    assert (Hn : same_shape (snd next) params) by apply Hs.
    cbn [fold_left map fst].
    assert (HO' : same_shape (fst (add_sample (sO, sOE) (e, snd next)))
                    params).
    { cbn [add_sample fst snd].
      eapply same_shape_trans; [|exact HO]. apply tree_zip_shape.
      - intros a b Hab. apply pointwise_length, Hab.
      - eapply same_shape_trans; [exact HO|apply same_shape_sym, Hn]. }
    assert (HOE' : same_shape (snd (add_sample (sO, sOE) (e, snd next)))
                     params).
    { cbn [add_sample fst snd].
      eapply same_shape_trans; [|exact HOE]. apply tree_zip_shape.
      - intros a b Hab. apply pointwise_length.
        unfold Arr.mul_scalar. rewrite length_map. exact Hab.
      - eapply same_shape_trans; [exact HOE|apply same_shape_sym, Hn]. }
    destruct (IH (snd (fst next)) (fst (fst next))
                (fst (add_sample (sO, sOE) (e, snd next)))
                (snd (add_sample (sO, sOE) (e, snd next)))
                (fst (split seed)) Hs HO' HOE')
      as (H1 & H2 & lp' & cfg' & seed' & Hscan).
    cbv zeta in H1, H2, Hscan.
    rewrite <- surjective_pairing in H1, H2, Hscan.
    split; [exact H1|]. split; [exact H2|].
    exists lp', cfg', seed'.
    rewrite scan_outcome_S, kernel_outcome. cbv zeta.
    fold e. fold next.
    rewrite (tree_map2_ok _ (pointwise F32.add) sO (snd next)).
    2:{ intros a b Hab. apply zip_with_ok, Hab. }
    2:{ eapply same_shape_trans; [exact HO|apply same_shape_sym, Hn]. }
    cbn [rbind].
    rewrite (tree_map2_ok _
               (fun x y => pointwise F32.add x (Arr.mul_scalar y e))
               sOE (snd next)).
    2:{ intros a b Hab. apply zip_with_ok.
        unfold Arr.mul_scalar. rewrite length_map. exact Hab. }
    2:{ eapply same_shape_trans; [exact HOE|apply same_shape_sym, Hn]. }
    cbn [rbind]. cbn [add_sample fst snd] in Hscan.
    rewrite_outcome Hscan. reflexivity.
Qed.

(** The batch evaluator with a shape-keeping sampler, in closed form. *)
Lemma calc_local_energies_fold
    (init_walker_cfg : Cfg) (init_log_psi : LogPsi) params seed :
  sampler_keeps_shape self ->
  let root := match seed with Some s => s | None => PRNGKey 0 end in
  let B := F32.of_int (Z.of_nat (batch_size self)) in
  let zeros := tree_map (fun x => Arr.mul_scalar x (F32.of_int 0)) params in
  let samples :=
    batch_samples split self params init_log_psi init_walker_cfg root
      (batch_size self) in
  let acc := fold_left add_sample samples (zeros, zeros) in
  same_shape (fst acc) params /\
  same_shape (snd acc) params /\
  outcome (calc_local_energies split PRNGKey self init_walker_cfg
             init_log_psi params seed)
  = Ok (map fst samples,
        mean (map fst samples),
        tree_map (fun x => Arr.div_scalar x B) (fst acc),
        tree_map (fun x => Arr.div_scalar x B) (snd acc)).
Proof.
  intros Hs root B zeros samples acc.
  assert (Hz : same_shape zeros params)
    by (apply tree_map_shape; intros a; apply length_map).
  destruct (scan_fold params (batch_size self) init_log_psi init_walker_cfg
              zeros zeros root Hs Hz Hz)
    as (H1 & H2 & lp' & cfg' & seed' & Hscan).
  split; [exact H1|]. split; [exact H2|].
  rewrite calc_local_energies_outcome. fold root. unfold init_carry.
  fold zeros. rewrite_outcome Hscan.
  cbn [carry_sum_O carry_sum_O_times_local_energy].
  unfold mean. rewrite length_map.
  unfold samples. rewrite batch_samples_length. reflexivity.
Qed.

(** X6.  With a sampler whose statistic has the parameters' shape, the
    batch evaluator is a left fold over its samples: step [i] pairs the
    local energy of the configuration it starts from with the statistic
    of the sample it moves to; [O] is the zero-initialized accumulator
    with every statistic added, divided by [batch_size], and
    [O_times_E] likewise with every statistic times its step's energy. *)
Theorem calc_local_energies_is_fold
    (init_walker_cfg : Cfg) (init_log_psi : LogPsi) params seed :
  sampler_keeps_shape self ->
  let root := match seed with Some s => s | None => PRNGKey 0 end in
  let B := F32.of_int (Z.of_nat (batch_size self)) in
  let zeros := tree_map (fun x => Arr.mul_scalar x (F32.of_int 0)) params in
  let samples :=
    batch_samples split self params init_log_psi init_walker_cfg root
      (batch_size self) in
  let acc := fold_left add_sample samples (zeros, zeros) in
  outcome (calc_local_energies split PRNGKey self init_walker_cfg
             init_log_psi params seed)
  = Ok (map fst samples,
        mean (map fst samples),
        tree_map (fun x => Arr.div_scalar x B) (fst acc),
        tree_map (fun x => Arr.div_scalar x B) (snd acc)).
Proof.
  intros Hs. cbv zeta.
  apply (calc_local_energies_fold init_walker_cfg init_log_psi params seed Hs).
Qed.

(** X7.  An empty batch does not raise: with [batch_size = 0] and a
    shape-keeping sampler the batch evaluator makes no kernel step and
    returns no energy, [E = NaN] (zero divided by zero) and, whatever the
    parameters, [O] and [O_times_E] with NaN in every element. *)
Theorem calc_local_energies_empty_batch
    (init_walker_cfg : Cfg) (init_log_psi : LogPsi) params seed :
  sampler_keeps_shape self ->
  batch_size self = 0 ->
  calc_local_energies split PRNGKey self init_walker_cfg init_log_psi
    params seed
  = ([EvCalcLocalEnergies init_walker_cfg init_log_psi params
        (match seed with Some s => s | None => PRNGKey 0 end)],
     Ok ([], S754_nan,
         tree_map (map (fun _ => S754_nan)) params,
         tree_map (map (fun _ => S754_nan)) params)).
Proof.
  intros _ HB. unfold calc_local_energies. rewrite HB.
  cbn [scan bind emit ret app init_carry].
  assert (H : tree_map
                (fun x => Arr.div_scalar x (F32.of_int (Z.of_nat 0)))
                (tree_map (fun x => Arr.mul_scalar x (F32.of_int 0)) params)
              = tree_map (map (fun _ => S754_nan)) params).
  { rewrite tree_map_map. apply tree_map_ext. intros a.
    unfold Arr.div_scalar, Arr.mul_scalar. rewrite map_map.
    apply map_ext. intros v. destruct v as [s|s| |s m e]; reflexivity. }
  rewrite H. reflexivity.
Qed.

(** X8.  A sampler statistic whose tree structure differs from that of
    the parameters stops a batch at its first step with [ValueError],
    after one call to [split], one to the Hamiltonian and one to the
    sampler. *)
Theorem calc_local_energies_structure_mismatch
    (init_walker_cfg : Cfg) (init_log_psi : LogPsi) params seed :
  let root := match seed with Some s => s | None => PRNGKey 0 end in
  0 < batch_size self ->
  tree_structure
    (snd (next_sample (sampler self) init_log_psi params init_walker_cfg
            (snd (split root))))
  <> tree_structure params ->
  calc_local_energies split PRNGKey self init_walker_cfg init_log_psi
    params seed
  = ([EvCalcLocalEnergies init_walker_cfg init_log_psi params root;
      EvSplit root;
      EvCalcLocalEnergy params init_walker_cfg;
      EvNextSample init_log_psi params init_walker_cfg (snd (split root))],
     Raise ValueError).
Proof.
  intros root HB Hneq.
  set (next := next_sample _ _ _ _ _) in Hneq.
  assert (Hk : outcome (calc_local_energy_kernel split self
                          (init_carry init_log_psi params init_walker_cfg
                             root) tt) = Raise ValueError).
  { unfold init_carry. rewrite kernel_outcome. cbv zeta. fold next.
    unfold tree_map2.
    destruct (tree_structure_eqb _ (snd next)) eqn:Heq; [|reflexivity].
    exfalso. apply Hneq. unfold tree_structure_eqb in Heq.
    unfold tree_structure in *. cbn [tree_map _V _b _W _c] in Heq.
    rewrite !length_map in Heq. cbn [combine forallb] in Heq.
    rewrite !andb_true_iff, !Nat.eqb_eq in Heq.
    destruct Heq as (-> & -> & -> & -> & _). reflexivity. }
  rewrite (monad_eta (calc_local_energies _ _ _ _ _ _ _)).
  rewrite calc_local_energies_trace, calc_local_energies_outcome.
  fold root. destruct (batch_size self) as [|n]; [lia|].
  rewrite scan_trace_S, scan_outcome_S, Hk.
  unfold init_carry. rewrite kernel_trace, app_nil_r. reflexivity.
Qed.

End BatchFold.

Lemma calc_local_energies_is_fold_witness :
  sampler_keeps_shape (Stub.nnqs 4) /\
  outcome (calc_local_energies Stub.split Stub.PRNGKey (Stub.nnqs 4)
             (Stub.PRNGKey 7) F32.zero Stub.params0 None)
  = Ok ([Stub.one; Stub.one; Stub.one; Stub.one], Stub.one,
        tree_map (map (fun _ => Stub.half)) Stub.params0,
        tree_map (map (fun _ => Stub.half)) Stub.params0).
Proof.
  split; [apply stub_sampler_keeps_shape|].
  rewrite (calc_local_energies_is_fold Stub.split Stub.PRNGKey (Stub.nnqs 4)
             (Stub.PRNGKey 7) F32.zero Stub.params0 None
             (stub_sampler_keeps_shape 4)).
  vm_compute. reflexivity.
Defined.

Lemma calc_local_energies_empty_batch_witness :
  sampler_keeps_shape (Stub.nnqs 0) /\
  outcome (calc_local_energies Stub.split Stub.PRNGKey (Stub.nnqs 0)
             (Stub.PRNGKey 7) F32.zero Stub.params0 None)
  = Ok ([], S754_nan,
        tree_map (map (fun _ => S754_nan)) Stub.params0,
        tree_map (map (fun _ => S754_nan)) Stub.params0).
Proof.
  split; [apply stub_sampler_keeps_shape|].
  rewrite (calc_local_energies_empty_batch Stub.split Stub.PRNGKey
             (Stub.nnqs 0) (Stub.PRNGKey 7) F32.zero Stub.params0 None
             (stub_sampler_keeps_shape 0) eq_refl).
  reflexivity.
Defined.

Lemma calc_local_energies_structure_mismatch_witness :
  outcome (calc_local_energies Stub.split Stub.PRNGKey
             (StubEdge.nnqs_flat 4) (Stub.PRNGKey 7) F32.zero Stub.params0
             None)
  = Raise ValueError.
Proof.
  rewrite (calc_local_energies_structure_mismatch Stub.split Stub.PRNGKey
             (StubEdge.nnqs_flat 4) (Stub.PRNGKey 7) F32.zero Stub.params0
             None).
  - reflexivity.
  - cbn. lia.
  - cbn. discriminate.
Defined.

(* ================================================================= *)
(** ** A NaN among the local energies *)

Lemma add_nan_l x : F32.add S754_nan x = S754_nan.
Proof. reflexivity. Qed.

Lemma add_nan_r x : F32.add x S754_nan = S754_nan.
Proof. destruct x as [s|s| |s m e]; reflexivity. Qed.

Lemma fold_add_nan l : fold_left F32.add l S754_nan = S754_nan.
Proof. induction l as [|x l IH]; [reflexivity|]. cbn. exact IH. Qed.

Lemma sum_nan l : In S754_nan l -> F32.sum l = S754_nan.
Proof.
  unfold F32.sum. generalize F32.zero.
  induction l as [|x l IH]; intros acc Hin; [destruct Hin|].
  cbn [fold_left]. destruct Hin as [->|Hin].
  - rewrite add_nan_r. apply fold_add_nan.
  - apply IH, Hin.
Qed.

Lemma div_nan_l y : F32.div S754_nan y = S754_nan.
Proof. reflexivity. Qed.

Lemma sub_mul_nan x y :
  F32.nan_to_num (F32.sub x (F32.mul y S754_nan)) = F32.zero.
Proof.
  assert (H : F32.mul y S754_nan = S754_nan)
    by (destruct y as [s|s| |s m e]; reflexivity).
  rewrite H. destruct x as [s|s| |s m e]; reflexivity.
Qed.

Lemma nan_row x : forall y,
  length x = length y ->
  Arr.nan_to_num (pointwise F32.sub x (Arr.mul_scalar y S754_nan))
  = map (fun _ => F32.zero) x.
Proof.
  induction x as [|a x IH]; intros [|b y] H; try discriminate H;
    [reflexivity|].
  cbn [Arr.mul_scalar map]. unfold pointwise. rewrite zipl_cons.
  cbn [Arr.nan_to_num map]. rewrite sub_mul_nan. f_equal.
  apply IH. simpl in H. lia.
Qed.

Lemma zipl_first {A B C} (g : A -> B -> C) (h : A -> C) (R : A -> B -> Prop)
    l1 l2 :
  (forall a b, R a b -> g a b = h a) ->
  Forall2 R l1 l2 -> zipl g l1 l2 = map h l1.
Proof.
  intros Hg H. induction H as [|a b l1 l2 Hab _ IH]; [reflexivity|].
  rewrite zipl_cons. cbn [map]. rewrite (Hg _ _ Hab), IH. reflexivity.
Qed.

Lemma tree_zip_first (g : Array -> Array -> Array) (h : Array -> Array)
    (p q : NetParams) :
  (forall a b, length a = length b -> g a b = h a) ->
  same_shape p q -> tree_zip g p q = tree_map h p.
Proof.
  intros Hg H.
  destruct (same_shape_fields p q H)
    as (HV & Hb & HW & Hc & H1 & H2 & H3 & H4 & H5).
  unfold tree_zip, tree_map.
  rewrite !(zipl_first g h _ _ _ Hg) by assumption.
  rewrite (Hg _ _ H1), (Hg _ _ H2), (Hg _ _ H3), (Hg _ _ H4), (Hg _ _ H5).
  reflexivity.
Qed.

Lemma grad_L_of_nan O_times_local_energy O_ :
  same_shape O_times_local_energy O_ ->
  grad_L S754_nan O_times_local_energy O_
  = Ok (tree_map (map (fun _ => F32.zero)) O_times_local_energy).
Proof.
  intros H. rewrite grad_L_closed_form by exact H. f_equal.
  unfold raw_grad. rewrite tree_map_zip.
  apply tree_zip_first; [|exact H]. intros a b Hab. apply nan_row, Hab.
Qed.

Section NanEnergy.
Context {Seed Cfg LogPsi : Type}.
Variable split : Seed -> Seed * Seed.
Variable PRNGKey : Z -> Seed.
Variable self : @NNQS Seed Cfg LogPsi.

(** X9.  With a shape-keeping sampler, one NaN among the local energies
    of a batch makes [E] NaN and the whole gradient zero: every element
    of [grad_L] is replaced, not only those the NaN sample touched. *)
Theorem nan_energy_zeroes_gradient
    (init_walker_cfg : Cfg) (init_log_psi : LogPsi) params seed
    local_energies E O_ O_times_local_energy :
  sampler_keeps_shape self ->
  outcome (calc_local_energies split PRNGKey self init_walker_cfg
             init_log_psi params seed)
    = Ok (local_energies, E, O_, O_times_local_energy) ->
  In S754_nan local_energies ->
  E = S754_nan /\
  same_shape O_times_local_energy params /\
  grad_L E O_times_local_energy O_
    = Ok (tree_map (map (fun _ => F32.zero)) O_times_local_energy).
Proof.
  intros Hs Hout Hnan.
  destruct (calc_local_energies_fold split PRNGKey self init_walker_cfg
              init_log_psi params seed Hs) as (H1 & H2 & Hfold).
  cbv zeta in H1, H2, Hfold. rewrite Hfold in Hout.
  injection Hout as Hles HE HO HOE.
  assert (HshO : same_shape O_ params).
  { rewrite <- HO. eapply same_shape_trans; [|exact H1].
    apply tree_map_shape. intros a. apply length_map. }
  assert (HshOE : same_shape O_times_local_energy params).
  { rewrite <- HOE. eapply same_shape_trans; [|exact H2].
    apply tree_map_shape. intros a. apply length_map. }
  assert (HEnan : E = S754_nan).
  { rewrite <- HE. unfold mean. rewrite Hles, (sum_nan _ Hnan).
    apply div_nan_l. }
  split; [exact HEnan|]. split; [exact HshOE|].
  rewrite HEnan. apply grad_L_of_nan.
  eapply same_shape_trans; [exact HshOE|apply same_shape_sym, HshO].
Qed.

End NanEnergy.

Lemma nan_energy_zeroes_gradient_witness :
  exists local_energies E O_ O_times_local_energy,
    outcome (calc_local_energies Stub.split Stub.PRNGKey
               (StubEdge.nnqs_nan 2) (Stub.PRNGKey 7) F32.zero Stub.params0
               None)
      = Ok (local_energies, E, O_, O_times_local_energy) /\
    In S754_nan local_energies /\
    grad_L E O_times_local_energy O_ = Ok Stub.zeros.
Proof.
  eexists _, _, _, _. split; [vm_compute; reflexivity|].
  split; [left; reflexivity|].
  assert (Hs : sampler_keeps_shape (StubEdge.nnqs_nan 2))
    by exact (stub_sampler_keeps_shape 2).
  refine (eq_trans
            (proj2 (proj2
               (nan_energy_zeroes_gradient Stub.split Stub.PRNGKey
                  (StubEdge.nnqs_nan 2) (Stub.PRNGKey 7) F32.zero
                  Stub.params0 None _ _ _ _ Hs _ _))) _).
  - vm_compute. reflexivity.
  - left. reflexivity.
  - vm_compute. reflexivity.
Defined.

(* ================================================================= *)
(** ** Keys and seeds along the training loop *)

Lemma for_range_trace_S {Ev St} (body : nat -> St -> M Ev St) start n st :
  trace (for_range start (S n) body st) =
  trace (body start st) ++
  match outcome (body start st) with
  | Ok st1 => trace (for_range (S start) n body st1)
  | Raise _ => []
  end.
Proof. cbn [for_range]. apply trace_bind. Qed.

Lemma for_range_outcome_S {Ev St} (body : nat -> St -> M Ev St) start n st :
  outcome (for_range start (S n) body st) =
  match outcome (body start st) with
  | Ok st1 => outcome (for_range (S start) n body st1)
  | Raise e => Raise e
  end.
Proof. cbn [for_range]. apply outcome_bind. Qed.

Section LoopKeys.
Context {Seed Cfg LogPsi OptState : Type}.
Variable split : Seed -> Seed * Seed.
Variable PRNGKey : Z -> Seed.
Variable concatenate : list Cfg -> Cfg.
Variable self : @NNQS Seed Cfg LogPsi.
Variable optimizer : @Optimizer OptState.

Lemma sampler_seeds_app (tr1 tr2 : list (@Event Seed Cfg LogPsi)) :
  sampler_seeds (tr1 ++ tr2) = sampler_seeds tr1 ++ sampler_seeds tr2.
Proof. apply flat_map_app. Qed.

Lemma walker_keys_app (tr1 tr2 : list (@Event Seed Cfg LogPsi)) :
  walker_keys (tr1 ++ tr2) = walker_keys tr1 ++ walker_keys tr2.
Proof. apply flat_map_app. Qed.

Lemma split_keys_app (tr1 tr2 : list (@Event Seed Cfg LogPsi)) :
  split_keys (tr1 ++ tr2) = split_keys tr1 ++ split_keys tr2.
Proof. apply flat_map_app. Qed.

Lemma kernel_events_no_walker (tr : list (@Event Seed Cfg LogPsi)) :
  Forall kernel_event tr -> walker_keys tr = [].
Proof.
  induction 1 as [|ev tr Hev _ IH]; [reflexivity|].
  destruct ev; cbn in Hev; try contradiction; exact IH.
Qed.

(** A scan that returns has handed the sampler the second halves of the
    chain of splits that starts at the carry's seed. *)
Lemma scan_sampler_seeds_chain n : forall c c' es,
  outcome (scan (calc_local_energy_kernel split self) c n) = Ok (c', es) ->
  sampler_seeds (trace (scan (calc_local_energy_kernel split self) c n))
  = chain_sampler_seeds split (carry_seed c) n.
Proof.
  induction n as [|n IH]; intros c c' es; [reflexivity|].
  rewrite scan_outcome_S, scan_trace_S.
  destruct (outcome (calc_local_energy_kernel split self c tt))
    as [[c1 e]|err] eqn:Hk; [|discriminate].
  destruct (outcome (scan _ c1 n)) as [[c2 es']|err] eqn:Hs; [|discriminate].
  intros _. rewrite sampler_seeds_app, (IH _ _ _ Hs).
  destruct (kernel_ok_inv split self c c1 e Hk) as [_ ->].
  destruct c as [[[[[lp p] cfg] sO] sOE] s]. rewrite kernel_trace.
  reflexivity.
Qed.

Lemma batch_sampler_seeds_chain
    (init_walker_cfg : Cfg) (init_log_psi : LogPsi) params seed :
  sampler_keeps_shape self ->
  sampler_seeds
    (trace (calc_local_energies split PRNGKey self init_walker_cfg
              init_log_psi params seed))
  = chain_sampler_seeds split
      (match seed with Some s => s | None => PRNGKey 0 end)
      (batch_size self).
Proof.
  intros Hs.
  destruct (calc_local_energies_scan_ok split PRNGKey self init_walker_cfg
              init_log_psi params seed Hs) as (c & les & Hscan & _).
  rewrite calc_local_energies_trace. cbv zeta.
  change (sampler_seeds (?e :: ?tr)) with (sampler_seeds tr).
  apply (scan_sampler_seeds_chain _ _ _ _ Hscan).
Qed.

Lemma train_body_sampler_seeds i st :
  sampler_keeps_shape self ->
  sampler_seeds
    (trace (train_body split PRNGKey concatenate self optimizer i st))
  = chain_sampler_seeds split (PRNGKey 0) (batch_size self).
Proof.
  intros Hs. destruct st as [[[params opt_state] Es] key].
  destruct (train_body_trace split PRNGKey concatenate self optimizer
              i params opt_state Es key) as (tail & -> & Htail).
  rewrite !sampler_seeds_app, (batch_sampler_seeds_chain _ _ params None Hs).
  destruct Htail as [->|(les & E & O_ & OtE & g & _ & _ & ->)]; cbn;
    apply app_nil_r.
Qed.

Lemma train_body_walker_keys i params (opt_state : OptState) Es key :
  walker_keys
    (trace (train_body split PRNGKey concatenate self optimizer i
              (params, opt_state, Es, key)))
  = [snd (split key)] /\
  In (snd (split key))
    (split_keys
       (trace (train_body split PRNGKey concatenate self optimizer i
                 (params, opt_state, Es, key)))).
Proof.
  destruct (train_body_trace split PRNGKey concatenate self optimizer
              i params opt_state Es key) as (tail & -> & Htail).
  split.
  - rewrite !walker_keys_app, calc_local_energies_trace. cbv zeta.
    change (walker_keys (EvCalcLocalEnergies ?a ?b ?c ?s :: ?tr))
      with (walker_keys tr).
    rewrite (kernel_events_no_walker _
               (scan_kernel_events split self (batch_size self) _)).
    destruct Htail as [->|(les & E & O_ & OtE & g & _ & _ & ->)];
      reflexivity.
  - rewrite split_keys_app. apply in_or_app. left. cbn. tauto.
Qed.

(** An iteration that completes leaves as key the second half of the
    second split. *)
Lemma train_body_ok_key i params (opt_state : OptState) Es key st' :
  outcome (train_body split PRNGKey concatenate self optimizer i
             (params, opt_state, Es, key)) = Ok st' ->
  snd st' = snd (split (snd (split key))).
Proof.
  unfold train_body, call.
  destruct (split key) as [subkey key1]. cbn [bind emit ret app snd].
  destruct (split key1) as [subkey' key2]. cbn [bind emit ret app snd].
  destruct (calc_local_energies _ _ _ _ _ _ _)
    as [trb [[[[les E] O_] OtE]|err]]; [|discriminate].
  cbn [bind lift]. destruct (grad_L E OtE O_) as [g|]; [|discriminate].
  destruct (update optimizer g opt_state params) as [updates opt_state'].
  destruct (apply_updates params updates) as [params'|]; [|discriminate].
  cbn [bind lift ret outcome snd]. intros H. injection H as <-. reflexivity.
Qed.

(** The keys that the loop hands to [init_walker_config] are the keys at
    the walker places below the loop key, for as many iterations as the
    loop runs. *)
Lemma for_range_walker_paths root n : forall start st p,
  snd st = derive split root p ->
  exists k, k <= n /\
    walker_keys
      (trace (for_range start n
                (train_body split PRNGKey concatenate self optimizer) st))
    = map (derive split root) (walker_paths_from p k).
Proof.
  induction n as [|n IH]; intros start st p Hkey.
  - exists O. split; [lia|reflexivity].
  - rewrite for_range_trace_S, walker_keys_app.
    destruct st as [[[params opt_state] Es] key]. cbn [snd] in Hkey.
    rewrite (proj1 (train_body_walker_keys start params opt_state Es key)).
    assert (Hk1 : snd (split key) = derive split root (p ++ [true])).
    { rewrite derive_app, <- Hkey. reflexivity. }
    cbn [app].
    destruct (outcome (train_body _ _ _ _ _ _ _)) as [st1|err] eqn:Hb.
    + destruct (IH (S start) st1 (p ++ [true; true])) as (k & Hle & Heq).
      { rewrite (train_body_ok_key _ _ _ _ _ _ Hb), Hk1.
        replace (p ++ [true; true]) with ((p ++ [true]) ++ [true])
          by (rewrite <- app_assoc; reflexivity).
        rewrite (derive_app split root (p ++ [true]) [true]). reflexivity. }
      exists (S k). split; [lia|].
      rewrite Heq. cbn [walker_paths_from map]. rewrite <- Hk1. reflexivity.
    + exists 1. split; [lia|].
      cbn [walker_paths_from map walker_keys flat_map]. rewrite <- Hk1.
      reflexivity.
Qed.

Lemma for_range_walker_keys_resplit n : forall start st,
  incl
    (walker_keys
       (trace (for_range start n
                 (train_body split PRNGKey concatenate self optimizer) st)))
    (split_keys
       (trace (for_range start n
                 (train_body split PRNGKey concatenate self optimizer) st))).
Proof.
  induction n as [|n IH]; intros start st x Hx; [destruct Hx|].
  rewrite for_range_trace_S, walker_keys_app in Hx.
  rewrite for_range_trace_S, split_keys_app.
  destruct st as [[[params opt_state] Es] key].
  destruct (train_body_walker_keys start params opt_state Es key)
    as [Hw Hs].
  rewrite Hw in Hx. apply in_or_app. destruct Hx as [<-|Hx].
  - left. exact Hs.
  - right. destruct (outcome (train_body _ _ _ _ _ _ _)) as [st1|err];
      [apply IH; exact Hx|destruct Hx].
Qed.

Lemma for_range_sampler_seeds n : forall start st st',
  sampler_keeps_shape self ->
  outcome (for_range start n
             (train_body split PRNGKey concatenate self optimizer) st)
    = Ok st' ->
  sampler_seeds
    (trace (for_range start n
              (train_body split PRNGKey concatenate self optimizer) st))
  = concat (repeat (chain_sampler_seeds split (PRNGKey 0) (batch_size self))
              n).
Proof.
  induction n as [|n IH]; intros start st st' Hs; [reflexivity|].
  rewrite for_range_outcome_S, for_range_trace_S, sampler_seeds_app.
  rewrite (train_body_sampler_seeds start st Hs).
  destruct (outcome (train_body _ _ _ _ _ _ _)) as [st1|err];
    [|discriminate].
  intros H. rewrite (IH _ _ _ Hs H). reflexivity.
Qed.

Lemma for_range_batch_count n : forall start st st',
  outcome (for_range start n
             (train_body split PRNGKey concatenate self optimizer) st)
    = Ok st' ->
  length (batch_seeds
            (trace (for_range start n
                      (train_body split PRNGKey concatenate self optimizer)
                      st))) = n.
Proof.
  induction n as [|n IH]; intros start st st'; [reflexivity|].
  rewrite for_range_outcome_S, for_range_trace_S, batch_seeds_app.
  rewrite train_body_batch_seeds.
  destruct (outcome (train_body _ _ _ _ _ _ _)) as [st1|err];
    [|discriminate].
  intros H. cbn [app length]. rewrite (IH _ _ _ H). reflexivity.
Qed.

Lemma train_loop_outcome_inv n_iters params (opt_state : OptState) params' Es :
  outcome (train_loop split PRNGKey concatenate self n_iters params
             optimizer opt_state) = Ok (params', Es) ->
  exists opt_state' key',
    outcome (for_range 0 (Z.to_nat n_iters)
               (train_body split PRNGKey concatenate self optimizer)
               (params, opt_state, [], PRNGKey 0))
    = Ok (params', opt_state', Es, key').
Proof.
  unfold train_loop. rewrite outcome_bind.
  destruct (outcome (for_range _ _ _ _)) as [[[[p o] Es'] k]|e];
    [|discriminate].
  cbn. intros H. injection H as <- <-. eexists _, _. reflexivity.
Qed.

(** X10.  When the loop of [train] completes, it has done [n_iters]
    iterations (none when [n_iters <= 0]): the history has that many
    entries and the batch evaluator was entered that many times; with
    [n_iters <= 0] the parameters come back as given, the history is
    empty and nothing was called. *)
Theorem train_loop_iterations n_iters params (opt_state : OptState)
    params' Es :
  let run :=
    train_loop split PRNGKey concatenate self n_iters params optimizer
      opt_state in
  outcome run = Ok (params', Es) ->
  length Es = Z.to_nat n_iters /\
  length (batch_seeds (trace run)) = Z.to_nat n_iters /\
  ((n_iters <= 0)%Z -> params' = params /\ Es = [] /\ trace run = []).
Proof.
  intros run H. subst run. split; [|split].
  - apply (train_loop_history _ _ _ _ _ _ _ _ _ _ H).
  - destruct (train_loop_outcome_inv _ _ _ _ _ H) as (os & k & Hf).
    rewrite train_loop_trace. apply (for_range_batch_count _ _ _ _ Hf).
  - intros Hle. revert H. rewrite train_loop_trace. unfold train_loop.
    replace (Z.to_nat n_iters) with 0 by lia. cbn.
    intros H. injection H as <- <-. repeat split.
Qed.

(** X11.  With a shape-keeping sampler, every iteration of the loop of
    [train] hands the sampler the same [batch_size] seeds, those of the
    chain of splits that starts at [PRNGKey 0]: a run that completes
    has replayed them [n_iters] times. *)
Theorem train_loop_replays_sampler_seeds n_iters params
    (opt_state : OptState) params' Es :
  sampler_keeps_shape self ->
  let run :=
    train_loop split PRNGKey concatenate self n_iters params optimizer
      opt_state in
  outcome run = Ok (params', Es) ->
  sampler_seeds (trace run)
  = concat (repeat (chain_sampler_seeds split (PRNGKey 0) (batch_size self))
              (Z.to_nat n_iters)).
Proof.
  intros Hs run H. subst run.
  destruct (train_loop_outcome_inv _ _ _ _ _ H) as (os & k & Hf).
  rewrite train_loop_trace. apply (for_range_sampler_seeds _ _ _ _ Hs Hf).
Qed.

(** X12.  Every key that the loop of [train] hands to
    [init_walker_config] is also handed to [split]: it is consumed
    twice.  These keys sit at pairwise distinct places of the tree of
    splits below [PRNGKey 0], iteration [i] taking the second half of the
    split of the key reached by taking the second half [2 * i] times;
    hence, when [split] does not collide on the [n_iters] places of one
    run, the walker keys are pairwise distinct from one iteration to the
    next. *)
Theorem train_loop_walker_keys n_iters params (opt_state : OptState) :
  let tr :=
    trace (train_loop split PRNGKey concatenate self n_iters params
             optimizer opt_state) in
  let paths := walker_paths_from [] (Z.to_nat n_iters) in
  incl (walker_keys tr) (split_keys tr) /\
  (NoDup paths /\
   exists k, k <= Z.to_nat n_iters /\
     walker_keys tr
       = map (derive split (PRNGKey 0)) (walker_paths_from [] k)) /\
  (collision_free_on split (PRNGKey 0) paths -> NoDup (walker_keys tr)).
Proof.
  intros tr paths. subst tr. rewrite train_loop_trace.
  assert (Hpaths : exists k, k <= Z.to_nat n_iters /\
            walker_keys
              (trace (for_range 0 (Z.to_nat n_iters)
                        (train_body split PRNGKey concatenate self optimizer)
                        (params, opt_state, [], PRNGKey 0)))
            = map (derive split (PRNGKey 0)) (walker_paths_from [] k)).
  { apply (for_range_walker_paths (PRNGKey 0) (Z.to_nat n_iters) 0
             (params, opt_state, [], PRNGKey 0) []).
    reflexivity. }
  split; [apply for_range_walker_keys_resplit|].
  split; [split; [apply walker_paths_NoDup|exact Hpaths]|].
  intros Hfree. destruct Hpaths as (k & Hle & ->).
  apply collision_free_on_NoDup; [apply walker_paths_NoDup|].
  apply (collision_free_on_incl split (PRNGKey 0) _ paths);
    [apply walker_paths_incl, Hle|exact Hfree].
Qed.

End LoopKeys.

Lemma train_loop_iterations_witness :
  exists params' Es,
    outcome (train_loop Stub.split Stub.PRNGKey Stub.concatenate
               (Stub.nnqs 2) 3 Stub.params0 Stub.sgd O) = Ok (params', Es) /\
    length Es = 3.
Proof.
  eexists _, _. split; [vm_compute; reflexivity|].
  refine (proj1 (train_loop_iterations Stub.split Stub.PRNGKey
                   Stub.concatenate (Stub.nnqs 2) Stub.sgd 3 Stub.params0 O
                   _ _ _)).
  vm_compute. reflexivity.
Defined.

Lemma train_loop_replays_sampler_seeds_witness :
  sampler_keeps_shape (Stub.nnqs 2) /\
  sampler_seeds
    (trace (train_loop Stub.split Stub.PRNGKey Stub.concatenate
              (Stub.nnqs 2) 2 Stub.params0 Stub.sgd O))
  = [(0%Z, [true]); (0%Z, [true; false]);
     (0%Z, [true]); (0%Z, [true; false])].
Proof.
  split; [apply stub_sampler_keeps_shape|].
  rewrite (train_loop_replays_sampler_seeds Stub.split Stub.PRNGKey
             Stub.concatenate (Stub.nnqs 2) Stub.sgd 2 Stub.params0 O
             Stub.params0 [Stub.one; Stub.one]
             (stub_sampler_keeps_shape 2)).
  - reflexivity.
  - vm_compute. reflexivity.
Defined.

Lemma train_loop_walker_keys_witness :
  collision_free_on StubFinite.split (StubFinite.PRNGKey 0)
    (walker_paths_from [] 4) /\
  NoDup (walker_keys
           (trace (train_loop StubFinite.split StubFinite.PRNGKey
                     StubFinite.concatenate (StubFinite.nnqs 2) 4
                     Stub.params0 Stub.sgd O))).
Proof.
  split; [exact stub_finite_walker_free|].
  exact (proj2 (proj2 (train_loop_walker_keys StubFinite.split
                         StubFinite.PRNGKey StubFinite.concatenate
                         (StubFinite.nnqs 2) Stub.sgd 4 Stub.params0 O))
           stub_finite_walker_free).
Defined.
